(** * GAA Stats: event ledger, undo, stats aggregation, match channels

    A shallow embedding of the Django backend in [backend/gaastats]:

    - [models_backup/__init__.py]: the tables [Player], [Match],
      [MatchEvent], [UserProfile] and the property [total_club_score];
    - [serializers/__init__.py]: [MatchEventSerializer] (its writable
      fields and [validate]);
    - [views/viewsets.py]: [MatchViewSet.start_match], [complete_match],
      [MatchEventViewSet.get_queryset], [perform_create], [undo],
      [StatsViewSet.player_summary], [match_summary];
    - [reports/match_report.py]: the fold of [generate_match_report_pdf];
    - [consumers/__init__.py]: [MatchConsumer.connect], [disconnect],
      [get_match_state] and [broadcast_to_match].

    The views import the tables from [..models]; their declarations
    are taken from [models_backup], and a user's profile is reached as
    the views reach it ([request.user.userprofile]).

    The relational store is explicit state: tables keyed by primary key,
    the event table as the list of its rows in insertion order, and the
    counter from which the store hands out event primary keys.  Every
    view is a function from a store (and the request) to a new store and
    a response.  Two failures of the layers below the views are part of
    the model, because the code runs into them: a row without a value
    for the NOT NULL column [timestamp] is refused by the store
    ([IntegrityError]), and a related row that is read from the event
    loop of the consumer is refused by the ORM
    ([SynchronousOnlyOperation]).  Foreign-key existence is not
    enforced by the model; rendering (HTML, JSON), the percentage fields
    computed with floating point and the optional auto-tweet of
    [perform_create] (wrapped in a [try]/[except] that cannot fail the
    request) are left out. *)

From stdpp Require Import base decidable option list gmap strings pretty sorting.
From Stdlib Require Import ZArith Lia.

Open Scope string_scope.
Open Scope Z_scope.

(** ** Data model ([models_backup/__init__.py]) *)

Module Models.

(** [MatchEvent.EVENT_TYPE_CHOICES] *)
Inductive EventType : Type :=
  | score_goal | score_1point | score_2point
  | shot_on_target | shot_wide | shot_saved
  | tackle_won | tackle_lost | block
  | turnover_lost | turnover_won
  | kickout_won | kickout_lost
  | substitution | injury | foul_committed | foul_conceded.

#[global] Instance EventType_eq_dec : EqDecision EventType.
Proof. solve_decision. Defined.

(** The stored string of each choice. *)
Definition event_type_name (t : EventType) : string :=
  match t with
  | score_goal => "score_goal" | score_1point => "score_1point"
  | score_2point => "score_2point"
  | shot_on_target => "shot_on_target" | shot_wide => "shot_wide"
  | shot_saved => "shot_saved"
  | tackle_won => "tackle_won" | tackle_lost => "tackle_lost"
  | block => "block"
  | turnover_lost => "turnover_lost" | turnover_won => "turnover_won"
  | kickout_won => "kickout_won" | kickout_lost => "kickout_lost"
  | substitution => "substitution" | injury => "injury"
  | foul_committed => "foul_committed" | foul_conceded => "foul_conceded"
  end.

(** [Match.STATUS_CHOICES] *)
Inductive MatchStatus : Type :=
  | scheduled | in_progress | completed | postponed | cancelled.

#[global] Instance MatchStatus_eq_dec : EqDecision MatchStatus.
Proof. solve_decision. Defined.

Definition status_name (s : MatchStatus) : string :=
  match s with
  | scheduled => "scheduled" | in_progress => "in_progress"
  | completed => "completed" | postponed => "postponed"
  | cancelled => "cancelled"
  end.

(** [Match.ENTRY_MODE_CHOICES] *)
Inductive EntryMode : Type := live | post_match.

#[global] Instance EntryMode_eq_dec : EqDecision EntryMode.
Proof. solve_decision. Defined.

(** Primary keys of clubs, users, players, matches and events. *)
Definition pk := Z.

(** [UserProfile]: the club a user belongs to (role is not consulted by
    the views modelled here). *)
Record UserProfile : Type := {
  profile_club : pk;
}.

(** [Player] *)
Record Player : Type := {
  player_club : pk;
  player_name : string;
  player_number : option nat;
}.

(** [Match]: owning club, entry mode, status and the stored score
    columns (all [PositiveIntegerField], default 0). *)
Record Match : Type := {
  match_club : pk;
  entry_mode : EntryMode;
  status : MatchStatus;
  club_score : nat;
  club_goals : nat;
  club_1point : nat;
  club_2point : nat;
  opposition_score : nat;
  opposition_goals : nat;
}.

(** [Match.total_club_score] *)
Definition total_club_score (m : Match) : nat :=
  (club_goals m * 3 + club_1point m + club_2point m)%nat.

(** [Match.total_opposition_score] *)
Definition total_opposition_score (m : Match) : nat :=
  (opposition_goals m * 3)%nat.

(** [MatchEvent]: [event_id] is the auto-assigned primary key, [data]
    the JSON payload (kept opaque), [corrected_event] the nullable
    self-reference.  [timestamp] is [None] on an instance that was
    built without one (as [undo] builds its copy); the column is
    declared [models.DateTimeField()], without [null=True] and without
    a default. *)
Record MatchEvent : Type := {
  event_id : pk;
  event_match : pk;
  event_player : option pk;
  timestamp : option Z;
  minute : nat;
  event_type : EventType;
  data : string;
  corrected_event : option pk;
}.

#[global] Instance MatchEvent_eq_dec : EqDecision MatchEvent.
Proof. solve_decision. Defined.

(** The store: one table per model. *)
Record Store : Type := {
  profiles : gmap pk UserProfile;   (* keyed by user id *)
  players : gmap pk Player;
  matches : gmap pk Match;
  events : list MatchEvent;         (* rows in insertion order *)
  next_event_id : pk;               (* the primary-key sequence *)
}.

Definition set_events (st : Store) (evs : list MatchEvent) (n : pk) : Store :=
  {| profiles := profiles st; players := players st; matches := matches st;
     events := evs; next_event_id := n |}.

Definition set_matches (st : Store) (ms : gmap pk Match) : Store :=
  {| profiles := profiles st; players := players st; matches := ms;
     events := events st; next_event_id := next_event_id st |}.

(** The fields of a new row are given as an event whose [event_id] is
    ignored; the row gets the next primary key. *)
Definition with_id (i : pk) (e : MatchEvent) : MatchEvent :=
  {| event_id := i; event_match := event_match e;
     event_player := event_player e; timestamp := timestamp e;
     minute := minute e; event_type := event_type e; data := data e;
     corrected_event := corrected_event e |}.

(** The INSERT of a row that satisfies the column constraints. *)
Definition insert_row (st : Store) (fields : MatchEvent)
  : Store * MatchEvent :=
  let e := with_id (next_event_id st) fields in
  (set_events st (events st ++ [e]) (next_event_id st + 1), e).

(** [MatchEvent.objects.create] with keyword fields.  [timestamp] is a
    NOT NULL column: for an instance without one the INSERT raises
    [IntegrityError] and no row is written; [None] stands for that. *)
Definition objects_create (st : Store) (fields : MatchEvent)
  : option (Store * MatchEvent) :=
  match timestamp fields with
  | Some _ => Some (insert_row st fields)
  | None => None
  end.

(** [instance.save()] on an existing row: the row with that primary key
    is overwritten with the instance's fields. *)
Definition save_event (st : Store) (e : MatchEvent) : Store :=
  set_events st
    ((λ r, if decide (event_id r = event_id e) then e else r) <$> events st)
    (next_event_id st).

Definition set_corrected_event (e : MatchEvent) (c : option pk) : MatchEvent :=
  {| event_id := event_id e; event_match := event_match e;
     event_player := event_player e; timestamp := timestamp e;
     minute := minute e; event_type := event_type e; data := data e;
     corrected_event := c |}.

Definition set_status (m : Match) (s : MatchStatus) : Match :=
  {| match_club := match_club m; entry_mode := entry_mode m; status := s;
     club_score := club_score m; club_goals := club_goals m;
     club_1point := club_1point m; club_2point := club_2point m;
     opposition_score := opposition_score m;
     opposition_goals := opposition_goals m |}.

(** The club owning the match an event belongs to ([match__club]). *)
Definition event_club (st : Store) (e : MatchEvent) : option pk :=
  match_club <$> matches st !! event_match e.

(** The club of an event's player ([player__club]). *)
Definition event_player_club (st : Store) (e : MatchEvent) : option pk :=
  p ← event_player e; player_club <$> players st !! p.

(** [queryset.filter(event_type=t).count()] *)
Definition count_type (t : EventType) (evs : list MatchEvent) : nat :=
  length (filter (λ e, event_type e = t) evs).

(** The rows of the event table carry increasing primary keys, all
    below the sequence (so keys are unique). *)
Definition wf_store (st : Store) : Prop :=
  StronglySorted Z.lt (event_id <$> events st) ∧
  Forall (λ i, i < next_event_id st) (event_id <$> events st).

End Models.

(** ** Responses that are not a success *)

Module Errors.

(** [ValidationError errs]: [serializers.ValidationError] with the
    dictionary [errs] (field, message); [Response400 msg] and
    [Response404 msg]: [Response({'error': msg}, status=...)];
    [Http404]: the lookup of [get_object] found no row;
    [IntegrityError]: that exception of the store, which no view
    catches, ends the request (a server error, nothing is written). *)
Inductive ApiError : Type :=
  | ValidationError (errs : list (string * string))
  | Response400 (msg : string)
  | Response404 (msg : string)
  | Http404
  | IntegrityError.

#[global] Instance ApiError_eq_dec : EqDecision ApiError.
Proof. solve_decision. Defined.

(** The spec's names for the failures the views raise. *)
Definition OwnershipViolation : ApiError :=
  ValidationError
    [("error", "Player must belong to the home club (not opposition)")].

Definition InvalidState : ApiError :=
  ValidationError
    [("error", "Can only record events for in-progress matches")].

Definition AlreadyCorrected : ApiError :=
  Response400 "Event has already been undone".

Definition PlayerRequired (t : Models.EventType) : ApiError :=
  ValidationError
    [("player",
      Models.event_type_name t +:+ " events must be associated with a player")].

End Errors.

(** ** [MatchEventSerializer] and [MatchEventViewSet] *)

Module Ledger.
Import Models Errors.

(** The writable fields of [MatchEventSerializer]: every field of
    [Meta.fields] but [id] (auto) and [created_at] (read-only); the
    foreign keys are given by primary key. *)
Record EventData : Type := {
  d_match : pk;
  d_player : option pk;
  d_timestamp : Z;
  d_minute : nat;
  d_event_type : EventType;
  d_data : string;
  d_corrected_event : option pk;
}.

(** [serializer.validated_data]: the foreign keys resolved to rows. *)
Record ValidatedData : Type := {
  v_match : pk * Match;
  v_player : option (pk * Player);
  v_timestamp : Z;
  v_minute : nat;
  v_event_type : EventType;
  v_data : string;
  v_corrected_event : option pk;
}.

(** The message of [PrimaryKeyRelatedField] for a key that names no
    row; it carries the key between double quotes. *)
Definition double_quote : string :=
  String (Ascii.ascii_of_nat 34%nat) EmptyString.

Definition invalid_pk (pk_value : pk) : string :=
  "Invalid pk " +:+ double_quote +:+ pretty pk_value +:+ double_quote
  +:+ " - object does not exist.".

(** [player_required_events] of [MatchEventSerializer.validate] *)
Definition player_required_events : list EventType :=
  [score_goal; score_1point; score_2point;
   shot_on_target; shot_wide; shot_saved;
   tackle_won; tackle_lost; block;
   turnover_lost; turnover_won;
   injury; foul_committed; foul_conceded].

(** Field validation: each primary key must name a row; the errors of
    all fields are collected. *)
Definition field_errors (st : Store) (d : EventData) : list (string * string) :=
  (if matches st !! d_match d is Some _ then []
   else [("match", invalid_pk (d_match d))])
  ++ (match d_player d with
      | Some p =>
          if players st !! p is Some _ then [] else [("player", invalid_pk p)]
      | None => []
      end)
  ++ (match d_corrected_event d with
      | Some c =>
          if decide (c ∈ event_id <$> events st) then []
          else [("corrected_event", invalid_pk c)]
      | None => []
      end).

(** [MatchEventSerializer.validate] *)
Definition validate (v : ValidatedData) : ApiError + ValidatedData :=
  if decide (v_event_type v ∈ player_required_events ∧ v_player v = None)
  then inl (PlayerRequired (v_event_type v))
  else inr v.

(** [serializer.is_valid(raise_exception=True)] *)
Definition is_valid (st : Store) (d : EventData) : ApiError + ValidatedData :=
  match field_errors st d with
  | _ :: _ as errs => inl (ValidationError errs)
  | [] =>
      match matches st !! d_match d with
      | None => inl (ValidationError [("match", invalid_pk (d_match d))])
      | Some m =>
          validate
            {| v_match := (d_match d, m);
               v_player := p ← d_player d; (λ r, (p, r)) <$> players st !! p;
               v_timestamp := d_timestamp d;
               v_minute := d_minute d;
               v_event_type := d_event_type d;
               v_data := d_data d;
               v_corrected_event := d_corrected_event d |}
      end
  end.

(** [serializer.save()]: the row built from the validated data. *)
Definition event_of (v : ValidatedData) : MatchEvent :=
  {| event_id := 0;
     event_match := fst (v_match v);
     event_player := fst <$> v_player v;
     timestamp := Some (v_timestamp v);
     minute := v_minute v;
     event_type := v_event_type v;
     data := v_data v;
     corrected_event := v_corrected_event v |}.

(** [MatchEventViewSet.perform_create] *)
Definition perform_create (st : Store) (v : ValidatedData)
  : Store * (ApiError + MatchEvent) :=
  let m := snd (v_match v) in
  if (match v_player v with
      | Some (_, player) => bool_decide (player_club player ≠ match_club m)
      | None => false
      end)
  then (st, inl OwnershipViolation)
  else if decide (status m ≠ in_progress)
  then (st, inl InvalidState)
  else match objects_create st (event_of v) with
       | Some (st', event) => (st', inr event)
       | None => (st, inl IntegrityError)
       end.

(** [CreateModelMixin.create]: validate, then [perform_create]. *)
Definition create (st : Store) (d : EventData)
  : Store * (ApiError + MatchEvent) :=
  match is_valid st d with
  | inl err => (st, inl err)
  | inr v => perform_create st v
  end.

(** [order_by('minute')] *)
Definition by_minute (e1 e2 : MatchEvent) : Prop := (minute e1 ≤ minute e2)%nat.

#[global] Instance by_minute_dec e1 e2 : Decision (by_minute e1 e2).
Proof. unfold by_minute. apply _. Defined.

(** [order_by('-timestamp')]: descending, rows without a timestamp
    first (the database of [settings.py] orders NULL as largest). *)
Definition by_timestamp_desc (e1 e2 : MatchEvent) : Prop :=
  match timestamp e1, timestamp e2 with
  | None, _ => True
  | Some _, None => False
  | Some t1, Some t2 => t2 ≤ t1
  end.

#[global] Instance by_timestamp_desc_dec e1 e2 : Decision (by_timestamp_desc e1 e2).
Proof. unfold by_timestamp_desc. destruct (timestamp e1), (timestamp e2); apply _. Defined.

(** [MatchEventViewSet.get_queryset]: [user] is the id of
    [request.user], [match_id] the query parameter. *)
Definition get_queryset (st : Store) (user : pk) (match_id : option pk)
  : list MatchEvent :=
  match profiles st !! user with
  | None => []
  | Some profile =>
      let user_club := profile_club profile in
      match match_id with
      | Some mid =>
          merge_sort by_minute
            (filter (λ e, event_club st e = Some user_club ∧ event_match e = mid)
                    (events st))
      | None =>
          merge_sort by_timestamp_desc
            (filter (λ e, event_club st e = Some user_club) (events st))
      end
  end.

(** [self.get_object()]: the row of the queryset with primary key [i]. *)
Definition get_object (st : Store) (user : pk) (match_id : option pk) (i : pk)
  : option MatchEvent :=
  List.find (λ e, bool_decide (event_id e = i)) (get_queryset st user match_id).

(** The keyword fields [undo] passes to [MatchEvent.objects.create]:
    [match], [player], [event_type], [minute], [corrected_event] and
    [data] of the original; [timestamp] is not among them. *)
Definition corrected_fields (original_event : MatchEvent) : MatchEvent :=
  {| event_id := 0;
     event_match := event_match original_event;
     event_player := event_player original_event;
     timestamp := None;
     minute := minute original_event;
     event_type := event_type original_event;
     data := data original_event;
     corrected_event := Some (event_id original_event) |}.

(** [MatchEventViewSet.undo] *)
Definition undo (st : Store) (user : pk) (match_id : option pk) (i : pk)
  : Store * (ApiError + MatchEvent) :=
  match get_object st user match_id i with
  | None => (st, inl Http404)
  | Some original_event =>
      if corrected_event original_event is Some _
      then (st, inl AlreadyCorrected)
      else
        match objects_create st (corrected_fields original_event) with
        | None => (st, inl IntegrityError)
        | Some (st1, corrected) =>
            let st2 :=
              save_event st1
                (set_corrected_event original_event
                   (Some (event_id corrected))) in
            (st2, inr corrected)
        end
  end.

End Ledger.

(** ** [MatchViewSet]: the lifecycle actions *)

Module Lifecycle.
Import Models Errors.

(** [MatchViewSet.get_queryset] followed by [get_object]: the match
    [i] when it belongs to the user's club and passes the optional
    [status] query parameter (an empty string is no filter).  The
    ordering by date of the queryset does not affect the lookup. *)
Definition get_object (st : Store) (user : pk) (status_filter : option string)
    (i : pk) : option Match :=
  profile ← profiles st !! user;
  m ← matches st !! i;
  if bool_decide (match_club m = profile_club profile)
     && (match status_filter with
         | Some s => bool_decide (s = "") || bool_decide (status_name (status m) = s)
         | None => true
         end)
  then Some m else None.

(** The body shared by the two actions: fetch, assign the status, save. *)
Definition set_match_status (new : MatchStatus) (st : Store) (user : pk)
    (status_filter : option string) (i : pk) : Store * (ApiError + Match) :=
  match get_object st user status_filter i with
  | None => (st, inl Http404)
  | Some m =>
      let m' := set_status m new in
      (set_matches st (<[i := m']> (matches st)), inr m')
  end.

(** [MatchViewSet.start_match] *)
Definition start_match := set_match_status in_progress.

(** [MatchViewSet.complete_match] *)
Definition complete_match := set_match_status completed.

(** The legal transitions as the specification lists them (not code of
    the repository; the property the views are compared with). *)
Definition spec_legal_transition (from to : MatchStatus) : bool :=
  match from, to with
  | scheduled, in_progress | scheduled, postponed | scheduled, cancelled
  | in_progress, completed | postponed, scheduled => true
  | _, _ => false
  end.

End Lifecycle.

(** ** [StatsViewSet] *)

Module Stats.
Import Models Errors.

(** The [stats] dictionary of [player_summary] (the tackle success rate,
    a rounded floating-point percentage, is left out). *)
Record PlayerSummary : Type := {
  ps_goals : nat;
  ps_point_1 : nat;
  ps_point_2 : nat;
  ps_total_score : nat;
  ps_shots_on_target : nat;
  ps_shots_wide : nat;
  ps_shots_saved : nat;
  ps_total_shots : nat;
  ps_tackles_won : nat;
  ps_tackles_lost : nat;
  ps_blocks : nat;
  ps_turnovers_lost : nat;
  ps_turnovers_won : nat;
}.

(** The counting part of [player_summary] over the filtered events. *)
Definition summarise_player (evs : list MatchEvent) : PlayerSummary :=
  let goals := count_type score_goal evs in
  let point_1 := count_type score_1point evs in
  let point_2 := count_type score_2point evs in
  let shots_on_target := count_type shot_on_target evs in
  let shots_wide := count_type shot_wide evs in
  let shots_saved := count_type shot_saved evs in
  {| ps_goals := goals; ps_point_1 := point_1; ps_point_2 := point_2;
     ps_total_score := (goals * 3 + point_1 + point_2 * 2)%nat;
     ps_shots_on_target := shots_on_target;
     ps_shots_wide := shots_wide;
     ps_shots_saved := shots_saved;
     ps_total_shots := (shots_on_target + shots_wide + shots_saved)%nat;
     ps_tackles_won := count_type tackle_won evs;
     ps_tackles_lost := count_type tackle_lost evs;
     ps_blocks := count_type block evs;
     ps_turnovers_lost := count_type turnover_lost evs;
     ps_turnovers_won := count_type turnover_won evs |}.

(** The events [player_summary] counts: those of the player, of the
    match when [match_id] is given. *)
Definition player_events (st : Store) (player_id : pk) (match_id : option pk)
  : list MatchEvent :=
  let evs := filter (λ e, event_player e = Some player_id) (events st) in
  match match_id with
  | Some mid => filter (λ e, event_match e = mid) evs
  | None => evs
  end.

(** [StatsViewSet.player_summary] *)
Definition player_summary (st : Store) (user : pk) (player_id : option pk)
    (match_id : option pk) : ApiError + PlayerSummary :=
  match player_id with
  | None => inl (Response400 "player_id query parameter required")
  | Some pid =>
      match profiles st !! user with
      | None => inl (Response404 "User profile not found")
      | Some profile =>
          match players st !! pid with
          | Some player =>
              if decide (player_club player = profile_club profile)
              then inr (summarise_player (player_events st pid match_id))
              else inl (Response404 "Player not found in your club")
          | None => inl (Response404 "Player not found in your club")
          end
      end
  end.

(** The response of [match_summary] (the participant count, over a
    table that is not modelled, and the display fields are left out). *)
Record MatchSummary : Type := {
  ms_goals : nat;
  ms_point_1 : nat;
  ms_point_2 : nat;
  ms_total : nat;
  ms_opposition_score : nat;
  ms_kickouts_won : nat;
  ms_kickouts_lost : nat;
  ms_kickouts_total : nat;
  ms_status : MatchStatus;
}.

(** [events.filter(match=match).filter(player__club=match.club)] *)
Definition home_events (st : Store) (i : pk) (m : Match) : list MatchEvent :=
  filter (λ e, event_player_club st e = Some (match_club m))
         (filter (λ e, event_match e = i) (events st)).

(** [StatsViewSet.match_summary] *)
Definition match_summary (st : Store) (user : pk) (match_id : option pk)
  : ApiError + MatchSummary :=
  match match_id with
  | None => inl (Response400 "match_id query parameter required")
  | Some mid =>
      match profiles st !! user with
      | None => inl (Response404 "User profile not found")
      | Some profile =>
          match matches st !! mid with
          | Some m =>
              if decide (match_club m = profile_club profile)
              then
                let evs := home_events st mid m in
                let goals := count_type score_goal evs in
                let point_1 := count_type score_1point evs in
                let point_2 := count_type score_2point evs in
                let kickouts_won := count_type kickout_won evs in
                let kickouts_lost := count_type kickout_lost evs in
                inr {| ms_goals := goals; ms_point_1 := point_1;
                       ms_point_2 := point_2;
                       ms_total := (goals * 3 + point_1 + point_2 * 2)%nat;
                       ms_opposition_score := opposition_score m;
                       ms_kickouts_won := kickouts_won;
                       ms_kickouts_lost := kickouts_lost;
                       ms_kickouts_total := (kickouts_won + kickouts_lost)%nat;
                       ms_status := status m |}
              else inl (Response404 "Match not found in your club")
          | None => inl (Response404 "Match not found in your club")
          end
      end
  end.

End Stats.

(** ** [reports/match_report.py] *)

Module Report.
Import Models.

(** The dictionary [team_stats]; the per-player dictionaries have the
    same counters (their [name] and [number] are display fields). *)
Record Counters : Type := {
  goals : nat;
  point_1 : nat;
  point_2 : nat;
  shots_taken : nat;
  shots_on_target : nat;
  tackles_won : nat;
}.

Definition zero : Counters :=
  {| goals := 0; point_1 := 0; point_2 := 0;
     shots_taken := 0; shots_on_target := 0; tackles_won := 0 |}.

(** The [if]/[elif] chain on [event.event_type]. *)
Definition bump (t : EventType) (c : Counters) : Counters :=
  match t with
  | score_goal =>
      {| goals := S (goals c); point_1 := point_1 c; point_2 := point_2 c;
         shots_taken := shots_taken c; shots_on_target := shots_on_target c;
         tackles_won := tackles_won c |}
  | score_1point =>
      {| goals := goals c; point_1 := S (point_1 c); point_2 := point_2 c;
         shots_taken := shots_taken c; shots_on_target := shots_on_target c;
         tackles_won := tackles_won c |}
  | score_2point =>
      {| goals := goals c; point_1 := point_1 c; point_2 := S (point_2 c);
         shots_taken := shots_taken c; shots_on_target := shots_on_target c;
         tackles_won := tackles_won c |}
  | Models.shot_on_target =>
      {| goals := goals c; point_1 := point_1 c; point_2 := point_2 c;
         shots_taken := S (shots_taken c);
         shots_on_target := S (shots_on_target c);
         tackles_won := tackles_won c |}
  | shot_wide | shot_saved =>
      {| goals := goals c; point_1 := point_1 c; point_2 := point_2 c;
         shots_taken := S (shots_taken c); shots_on_target := shots_on_target c;
         tackles_won := tackles_won c |}
  | tackle_won =>
      {| goals := goals c; point_1 := point_1 c; point_2 := point_2 c;
         shots_taken := shots_taken c; shots_on_target := shots_on_target c;
         tackles_won := S (tackles_won c) |}
  | _ => c
  end.

(** One iteration of [for event in events]. *)
Definition step (acc : Counters * gmap pk Counters) (event : MatchEvent)
  : Counters * gmap pk Counters :=
  let '(team_stats, player_stats) := acc in
  (bump (event_type event) team_stats,
   match event_player event with
   | Some p =>
       <[p := bump (event_type event) (default zero (player_stats !! p))]>
         player_stats
   | None => player_stats
   end).

(** [MatchEvent.objects.filter(match=match).order_by('minute')] *)
Definition match_events (st : Store) (i : pk) : list MatchEvent :=
  merge_sort Ledger.by_minute (filter (λ e, event_match e = i) (events st)).

Definition fold_events (evs : list MatchEvent) : Counters * gmap pk Counters :=
  fold_left step evs (zero, ∅).

(** [total_score] of the report. *)
Definition total_score (team_stats : Counters) : nat :=
  (goals team_stats * 3 + point_1 team_stats + point_2 team_stats)%nat.

(** The figures [generate_match_report_pdf] prints for match [i]:
    team counters, per-player counters and the total score (the shot
    accuracy is a floating-point percentage and is left out). *)
Definition generate_match_report (st : Store) (i : pk)
  : Counters * gmap pk Counters * nat :=
  let '(team_stats, player_stats) := fold_events (match_events st i) in
  (team_stats, player_stats, total_score team_stats).

End Report.

(** ** [consumers/__init__.py]: the match channel *)

Module Channels.
Import Models.

(** [scope['user']]: absent, anonymous or authenticated. *)
Record User : Type := {
  user_id : pk;
  is_authenticated : bool;
}.

(** The part of the connection scope [connect] reads: the [match_id]
    of the URL route ([<int:match_id>]) and the user. *)
Record Scope : Type := {
  url_match_id : pk;
  scope_user : option User;
}.

(** A group message [{'type': ..., 'data': ...}]. *)
Record Message : Type := {
  msg_type : string;
  msg_data : string;
}.

#[global] Instance Message_eq_dec : EqDecision Message.
Proof. solve_decision. Defined.

(** A consumer instance: its scope, its channel name and the attribute
    [match_group_name], which exists only once [connect] has set it. *)
Record Consumer : Type := {
  scope : Scope;
  channel_name : string;
  match_group_name : option string;
}.

(** What the handshake ends with: [self.accept()], [self.close(code)],
    or the exception [SynchronousOnlyOperation] leaving [connect]
    (neither [accept] nor [close] has then been called). *)
Inductive Outcome : Type :=
  | Accepted
  | Closed (code : Z)
  | SynchronousOnlyOperation.

(** Where code runs: in a synchronous thread (a view, or a method
    wrapped by [database_sync_to_async]) or on the event loop (the body
    of an [async def] handler). *)
Inductive Caller : Type := SyncThread | EventLoop.

(** [instance.club] on an instance that [objects.get] returned without
    [select_related]: the related row is not loaded yet and is queried
    on access.  A query from the event loop raises
    [SynchronousOnlyOperation] ([settings.py] does not set
    [DJANGO_ALLOW_ASYNC_UNSAFE], which would switch that check off);
    [None] stands for that. *)
Definition related_club (caller : Caller) (club_id : pk) : option pk :=
  match caller with
  | SyncThread => Some club_id
  | EventLoop => None
  end.

(** The channel layer: group name to the channel names in it. *)
Abbreviation ChannelLayer := (gmap string (gset string)).

Definition group_add (layer : ChannelLayer) (group channel : string)
  : ChannelLayer :=
  <[group := {[channel]} ∪ default ∅ (layer !! group)]> layer.

Definition group_discard (layer : ChannelLayer) (group channel : string)
  : ChannelLayer :=
  match layer !! group with
  | Some s => <[group := s ∖ {[channel]}]> layer
  | None => layer
  end.

Definition group_of (match_id : pk) : string := "match_" +:+ pretty match_id.

(** [MatchConsumer.connect].  [get_match] and [get_user_profile] run
    in a synchronous thread, inside the [try]; the comparison
    [match.club.id != user_profile.club.id] follows the two foreign
    keys in the body of [connect] itself, after the [try]. *)
Definition connect (st : Store) (layer : ChannelLayer) (self : Consumer)
  : ChannelLayer * Consumer * Outcome :=
  let match_id := url_match_id (scope self) in
  match scope_user (scope self) with
  | None => (layer, self, Closed 4001)
  | Some user =>
      if negb (is_authenticated user) then (layer, self, Closed 4001)
      else
        match matches st !! match_id, profiles st !! user_id user with
        | Some m, Some user_profile =>
            match related_club EventLoop (match_club m),
                  related_club EventLoop (profile_club user_profile) with
            | Some match_club_id, Some profile_club_id =>
                if decide (match_club_id ≠ profile_club_id)
                then (layer, self, Closed 4003)
                else
                  let g := group_of match_id in
                  (group_add layer g (channel_name self),
                   {| scope := scope self; channel_name := channel_name self;
                      match_group_name := Some g |},
                   Accepted)
            | _, _ => (layer, self, SynchronousOnlyOperation)
            end
        | _, _ => (layer, self, Closed 4004)
        end
  end.

(** [MatchConsumer.disconnect] *)
Definition disconnect (layer : ChannelLayer) (self : Consumer) : ChannelLayer :=
  match match_group_name self with
  | Some g => group_discard layer g (channel_name self)
  | None => layer
  end.

(** The message types [MatchConsumer] has a handler for; each handler
    sends the message's type and data to its client. *)
Definition handlers : list string :=
  ["match_update"; "score_update"; "event_created"; "player_subbed"].

(** [broadcast_to_match]: [group_send] to the group of the match; the
    result lists what is sent, to which channel. *)
Definition broadcast_to_match (layer : ChannelLayer) (match_id : pk)
    (event_type data : string) : list (string * Message) :=
  if decide (event_type ∈ handlers)
  then (λ ch, (ch, {| msg_type := event_type; msg_data := data |}))
         <$> elements (default ∅ (layer !! group_of match_id))
  else [].

(** The score block of [get_match_state]. *)
Record ScoreState : Type := {
  club_goals_ : nat;
  club_point_1 : nat;
  club_point_2 : nat;
  club_total : nat;
  opposition_goals_ : nat;
  opposition_total : nat;
}.

Record MatchState : Type := {
  state_match_id : pk;
  state_status : MatchStatus;
  state_score : ScoreState;
  state_recent_events : list MatchEvent;
}.

(** [MatchEvent.Meta.ordering = ['timestamp', 'minute']], ascending,
    rows without a timestamp last. *)
Definition by_timestamp_minute (e1 e2 : MatchEvent) : Prop :=
  match timestamp e1, timestamp e2 with
  | Some t1, Some t2 => t1 < t2 ∨ (t1 = t2 ∧ (minute e1 ≤ minute e2)%nat)
  | Some _, None => True
  | None, Some _ => False
  | None, None => (minute e1 ≤ minute e2)%nat
  end.

#[global] Instance by_timestamp_minute_dec e1 e2 :
  Decision (by_timestamp_minute e1 e2).
Proof.
  unfold by_timestamp_minute.
  destruct (timestamp e1), (timestamp e2); apply _.
Defined.

(** [MatchConsumer.get_match_state]; [None] when the match does not
    exist (the starting line-up, over a table that is not modelled, is
    left out). *)
Definition get_match_state (st : Store) (match_id : pk) : option MatchState :=
  m ← matches st !! match_id;
  Some {| state_match_id := match_id;
          state_status := status m;
          state_score :=
            {| club_goals_ := club_goals m;
               club_point_1 := club_1point m;
               club_point_2 := club_2point m;
               club_total := total_club_score m;
               opposition_goals_ := opposition_goals m;
               opposition_total := total_opposition_score m |};
          state_recent_events :=
            take 50 (merge_sort by_timestamp_minute
                       (filter (λ e, event_match e = match_id) (events st))) |}.

(** Connections over time: the layer, the live consumer instances by
    channel name and the log of everything sent to a client. *)
Record System : Type := {
  sys_layer : ChannelLayer;
  sys_consumers : gmap string Consumer;
  sys_log : list (string * Message);
}.

Definition init : System :=
  {| sys_layer := ∅; sys_consumers := ∅; sys_log := [] |}.

(** What can happen: a handshake on a new connection (against the store
    of that moment), a disconnect, a broadcast. *)
Inductive Action : Type :=
  | Handshake (st : Store) (channel : string) (sc : Scope)
  | Disconnect (channel : string)
  | Broadcast (match_id : pk) (event_type data : string).

Definition sys_step (sys : System) (a : Action) : System :=
  match a with
  | Handshake st channel sc =>
      let '(layer, self, _) :=
        connect st (sys_layer sys)
          {| scope := sc; channel_name := channel; match_group_name := None |} in
      {| sys_layer := layer;
         sys_consumers := <[channel := self]> (sys_consumers sys);
         sys_log := sys_log sys |}
  | Disconnect channel =>
      match sys_consumers sys !! channel with
      | Some self =>
          {| sys_layer := disconnect (sys_layer sys) self;
             sys_consumers := delete channel (sys_consumers sys);
             sys_log := sys_log sys |}
      | None => sys
      end
  | Broadcast match_id event_type data =>
      {| sys_layer := sys_layer sys;
         sys_consumers := sys_consumers sys;
         sys_log :=
           sys_log sys ++ broadcast_to_match (sys_layer sys) match_id event_type data |}
  end.

Definition run (sys : System) (actions : list Action) : System :=
  fold_left sys_step actions sys.

(** The tenant of the caller of a handshake, and of its target match. *)
Definition caller_tenant (st : Store) (sc : Scope) : option pk :=
  user ← scope_user sc;
  if is_authenticated user then profile_club <$> profiles st !! user_id user
  else None.

Definition match_tenant (st : Store) (sc : Scope) : option pk :=
  match_club <$> matches st !! url_match_id sc.

Definition tenant_mismatch (st : Store) (sc : Scope) : Prop :=
  ∃ cu cm, caller_tenant st sc = Some cu ∧ match_tenant st sc = Some cm ∧ cu ≠ cm.

End Channels.

(** ** Sequences of ledger and lifecycle requests *)

Module Api.
Import Models Errors.

Inductive Request : Type :=
  | Create (d : Ledger.EventData)
  | Undo (user : pk) (match_id : option pk) (i : pk)
  | StartMatch (user : pk) (status_filter : option string) (i : pk)
  | CompleteMatch (user : pk) (status_filter : option string) (i : pk).

(** The store after a request. *)
Definition handle (st : Store) (r : Request) : Store :=
  match r with
  | Create d => fst (Ledger.create st d)
  | Undo user match_id i => fst (Ledger.undo st user match_id i)
  | StartMatch user sf i => fst (Lifecycle.start_match st user sf i)
  | CompleteMatch user sf i => fst (Lifecycle.complete_match st user sf i)
  end.

Definition handle_all (st : Store) (rs : list Request) : Store :=
  fold_left handle rs st.


End Api.

(** ** A small club database used in the examples *)

Module Sample.
Import Models.

Definition fresh_match (club : pk) (s : MatchStatus) (mode : EntryMode) : Match :=
  {| match_club := club; entry_mode := mode; status := s;
     club_score := 0; club_goals := 0; club_1point := 0; club_2point := 0;
     opposition_score := 0; opposition_goals := 0 |}.

(** Club 1 (user 10, player 100, matches 1000-1003) and club 2
    (user 20, player 200); no events yet. *)
Definition st0 : Store :=
  {| profiles := {[ 10 := {| profile_club := 1 |};
                    20 := {| profile_club := 2 |} ]};
     players := {[ 100 := {| player_club := 1; player_name := "P";
                             player_number := Some 7%nat |};
                   200 := {| player_club := 2; player_name := "Q";
                             player_number := None |} ]};
     matches := {[ 1000 := fresh_match 1 in_progress live;
                   1001 := fresh_match 1 scheduled live;
                   1002 := fresh_match 1 completed post_match;
                   1003 := fresh_match 1 completed live ]};
     events := [];
     next_event_id := 1 |}.

Definition event_data (m : pk) (p : option pk) (t : EventType) (min : nat)
  : Ledger.EventData :=
  {| Ledger.d_match := m; Ledger.d_player := p; Ledger.d_timestamp := 0;
     Ledger.d_minute := min; Ledger.d_event_type := t; Ledger.d_data := "{}";
     Ledger.d_corrected_event := None |}.

(** The same request carrying a correction link to event [c]. *)
Definition correcting (d : Ledger.EventData) (c : pk) : Ledger.EventData :=
  {| Ledger.d_match := Ledger.d_match d; Ledger.d_player := Ledger.d_player d;
     Ledger.d_timestamp := Ledger.d_timestamp d;
     Ledger.d_minute := Ledger.d_minute d;
     Ledger.d_event_type := Ledger.d_event_type d;
     Ledger.d_data := Ledger.d_data d;
     Ledger.d_corrected_event := Some c |}.

(** A tackle won by player 100 in match 1000, minute 5. *)
Definition tackle : Ledger.EventData :=
  event_data 1000 (Some 100) tackle_won 5.

(** A goal, a one-point and a two-point score by player 100 in match
    1000, at minutes 10, 20 and 30. *)
Definition three_scores : list Api.Request :=
  [Api.Create (event_data 1000 (Some 100) score_goal 10);
   Api.Create (event_data 1000 (Some 100) score_1point 20);
   Api.Create (event_data 1000 (Some 100) score_2point 30)].

(** A match whose stored counts are one goal, one one-point and one
    two-point score. *)
Definition scored_match : Match :=
  {| match_club := 1; entry_mode := live; status := in_progress;
     club_score := 0; club_goals := 1; club_1point := 1; club_2point := 1;
     opposition_score := 0; opposition_goals := 0 |}.

(** Handshakes for match 1000 (club 1): by user 10 of club 1 and by
    user 20 of club 2. *)
Definition own_scope : Channels.Scope :=
  {| Channels.url_match_id := 1000;
     Channels.scope_user :=
       Some {| Channels.user_id := 10; Channels.is_authenticated := true |} |}.

Definition foreign_scope : Channels.Scope :=
  {| Channels.url_match_id := 1000;
     Channels.scope_user :=
       Some {| Channels.user_id := 20; Channels.is_authenticated := true |} |}.

(** A handshake without a user, and one by user 10 for a match that
    does not exist. *)
Definition anonymous_scope : Channels.Scope :=
  {| Channels.url_match_id := 1000; Channels.scope_user := None |}.

Definition missing_match_scope : Channels.Scope :=
  {| Channels.url_match_id := 9999;
     Channels.scope_user :=
       Some {| Channels.user_id := 10; Channels.is_authenticated := true |} |}.

Definition consumer (channel : string) (sc : Channels.Scope)
  : Channels.Consumer :=
  {| Channels.scope := sc; Channels.channel_name := channel;
     Channels.match_group_name := None |}.

Definition session : list Channels.Action :=
  [Channels.Handshake st0 "c1" own_scope;
   Channels.Handshake st0 "c2" foreign_scope;
   Channels.Broadcast 1000 "score_update" "{}";
   Channels.Disconnect "c2";
   Channels.Broadcast 1000 "event_created" "{}"].

(** Validated data for the scheduled match 1001 of club 1 with player
    200 of club 2. *)
Definition foreign_on_scheduled : Ledger.ValidatedData :=
  {| Ledger.v_match := (1001, fresh_match 1 scheduled live);
     Ledger.v_player :=
       Some (200, {| player_club := 2; player_name := "Q";
                     player_number := None |});
     Ledger.v_timestamp := 0; Ledger.v_minute := 5;
     Ledger.v_event_type := tackle_won; Ledger.v_data := "{}";
     Ledger.v_corrected_event := None |}.

(** Validated data for the completed match 1002 of club 1, in
    post-match entry mode, with player 100 of club 1. *)
Definition own_on_completed : Ledger.ValidatedData :=
  {| Ledger.v_match := (1002, fresh_match 1 completed post_match);
     Ledger.v_player :=
       Some (100, {| player_club := 1; player_name := "P";
                     player_number := Some 7%nat |});
     Ledger.v_timestamp := 0; Ledger.v_minute := 5;
     Ledger.v_event_type := tackle_won; Ledger.v_data := "{}";
     Ledger.v_corrected_event := None |}.

End Sample.

(** ** Predicates on stores used in the statements *)

Module Invariants.
Import Models.


(** Every event with a player has that player in the club that owns
    the event's match. *)
Definition player_owned (st : Store) : Prop :=
  ∀ e p, e ∈ events st → event_player e = Some p →
    ∃ player m, players st !! p = Some player ∧
                matches st !! event_match e = Some m ∧
                player_club player = match_club m.



(** Number of rows that carry a correction link. *)
Definition link_count (evs : list MatchEvent) : nat :=
  length (filter (λ e, corrected_event e ≠ None) evs).



(** The score block [get_match_state] builds from a match row. *)
Definition stored_score (m : Match) : Channels.ScoreState :=
  {| Channels.club_goals_ := club_goals m;
     Channels.club_point_1 := club_1point m;
     Channels.club_point_2 := club_2point m;
     Channels.club_total := total_club_score m;
     Channels.opposition_goals_ := opposition_goals m;
     Channels.opposition_total := total_opposition_score m |}.

End Invariants.

(** ** [reports/match_report.py]: the Excel report *)

Module MatchExcel.
Import Models.
Import Report.

Definition inc_goals (c : Counters) : Counters :=
  {| goals := S (goals c); point_1 := point_1 c; point_2 := point_2 c;
     shots_taken := shots_taken c; shots_on_target := shots_on_target c;
     tackles_won := tackles_won c |}.

Definition inc_point_1 (c : Counters) : Counters :=
  {| goals := goals c; point_1 := S (point_1 c); point_2 := point_2 c;
     shots_taken := shots_taken c; shots_on_target := shots_on_target c;
     tackles_won := tackles_won c |}.

Definition inc_point_2 (c : Counters) : Counters :=
  {| goals := goals c; point_1 := point_1 c; point_2 := S (point_2 c);
     shots_taken := shots_taken c; shots_on_target := shots_on_target c;
     tackles_won := tackles_won c |}.

Definition inc_shots_taken (c : Counters) : Counters :=
  {| goals := goals c; point_1 := point_1 c; point_2 := point_2 c;
     shots_taken := S (shots_taken c); shots_on_target := shots_on_target c;
     tackles_won := tackles_won c |}.

Definition inc_shots_on_target (c : Counters) : Counters :=
  {| goals := goals c; point_1 := point_1 c; point_2 := point_2 c;
     shots_taken := shots_taken c; shots_on_target := S (shots_on_target c);
     tackles_won := tackles_won c |}.

Definition inc_tackles_won (c : Counters) : Counters :=
  {| goals := goals c; point_1 := point_1 c; point_2 := point_2 c;
     shots_taken := shots_taken c; shots_on_target := shots_on_target c;
     tackles_won := S (tackles_won c) |}.

(** The [if]/[elif] chain of the Excel report, which tests the three
    shot kinds with [in [...]] and then [shot_on_target] inside. *)
Definition bump_in (t : EventType) (c : Counters) : Counters :=
  if decide (t = score_goal) then inc_goals c
  else if decide (t = score_1point) then inc_point_1 c
  else if decide (t = score_2point) then inc_point_2 c
  else if decide (t ∈ [Models.shot_on_target; shot_wide; shot_saved])
  then let c' := inc_shots_taken c in
       if decide (t = Models.shot_on_target) then inc_shots_on_target c' else c'
  else if decide (t = tackle_won) then inc_tackles_won c
  else c.

(** The first loop: team statistics. *)
Definition team_loop (evs : list MatchEvent) : Counters :=
  fold_left (λ team_stats event, bump_in (event_type event) team_stats) evs zero.

(** The second loop: player statistics. *)
Definition player_loop (evs : list MatchEvent) : gmap pk Counters :=
  fold_left
    (λ player_stats event,
       match event_player event with
       | Some p =>
           <[p := bump_in (event_type event) (default zero (player_stats !! p))]>
             player_stats
       | None => player_stats
       end)
    evs ∅.

(** The figures [generate_match_report_excel] writes for match [i]. *)
Definition generate_match_report_excel (st : Store) (i : pk)
  : Counters * gmap pk Counters * nat :=
  let evs := match_events st i in
  let team_stats := team_loop evs in
  (team_stats, player_loop evs, total_score team_stats).

End MatchExcel.

(** ** [views/dashboard_views.py]: the match detail page *)

Module Dashboard.
Import Models.

(** [match_detail] after [club_admin_required] has set [request.club]:
    [None] is the 404 of [get_object_or_404(Match, id=..., club=club)];
    otherwise the per-player dictionary of the page (its chain on the
    event type is the one of the PDF report). *)
Definition match_detail (st : Store) (club : pk) (match_id : pk)
  : option (gmap pk Report.Counters) :=
  m ← matches st !! match_id;
  if decide (match_club m = club)
  then Some (fold_left
               (λ player_stats event,
                  match event_player event with
                  | Some p =>
                      <[p := Report.bump (event_type event)
                               (default Report.zero (player_stats !! p))]>
                        player_stats
                  | None => player_stats
                  end)
               (Report.match_events st match_id) ∅)
  else None.

End Dashboard.

(** ** [reports/player_report.py] *)

Module PlayerReport.
Import Models.

(** [MatchEvent.objects.filter(player=player).order_by('-timestamp')[:50]] *)
Definition pdf_events (st : Store) (player : pk) : list MatchEvent :=
  take 50 (merge_sort Ledger.by_timestamp_desc
             (filter (λ e, event_player e = Some player) (events st))).

(** [MatchEvent.objects.filter(player=player)], in the default ordering
    of the model. *)
Definition excel_events (st : Store) (player : pk) : list MatchEvent :=
  merge_sort Channels.by_timestamp_minute
    (filter (λ e, event_player e = Some player) (events st)).

(** [generate_player_report_pdf]: the counters and [total_points] (the
    number of participations, over a table that is not modelled, and
    the accuracy percentage are left out). *)
Definition generate_player_report_pdf (st : Store) (player : pk)
  : Report.Counters * nat :=
  let stats :=
    fold_left (λ stats event, Report.bump (event_type event) stats)
              (pdf_events st player) Report.zero in
  (stats, Report.total_score stats).

(** [generate_player_report_excel] *)
Definition generate_player_report_excel (st : Store) (player : pk)
  : Report.Counters * nat :=
  let stats :=
    fold_left (λ stats event, MatchExcel.bump_in (event_type event) stats)
              (excel_events st player) Report.zero in
  (stats, Report.total_score stats).

End PlayerReport.

(** ** Counting, as the reports' loops do *)

Module Counting.
Import Models.

(** The counters a loop over [evs] ends with, written as counts. *)
Definition counts_of (evs : list MatchEvent) : Report.Counters :=
  {| Report.goals := count_type score_goal evs;
     Report.point_1 := count_type score_1point evs;
     Report.point_2 := count_type score_2point evs;
     Report.shots_taken :=
       (count_type shot_on_target evs + count_type shot_wide evs
        + count_type shot_saved evs)%nat;
     Report.shots_on_target := count_type shot_on_target evs;
     Report.tackles_won := count_type tackle_won evs |}.

Definition plus (a b : Report.Counters) : Report.Counters :=
  {| Report.goals := (Report.goals a + Report.goals b)%nat;
     Report.point_1 := (Report.point_1 a + Report.point_1 b)%nat;
     Report.point_2 := (Report.point_2 a + Report.point_2 b)%nat;
     Report.shots_taken := (Report.shots_taken a + Report.shots_taken b)%nat;
     Report.shots_on_target :=
       (Report.shots_on_target a + Report.shots_on_target b)%nat;
     Report.tackles_won := (Report.tackles_won a + Report.tackles_won b)%nat |}.

(** The events of match [i]. *)
Definition of_match (st : Store) (i : pk) : list MatchEvent :=
  filter (λ e, event_match e = i) (events st).

(** The per-player entry a loop over [evs] ends with. *)
Definition player_entry (evs : list MatchEvent) (p : pk)
  : option Report.Counters :=
  match filter (λ e, event_player e = Some p) evs with
  | [] => None
  | l => Some (counts_of l)
  end.

End Counting.

(** ** More sample data *)

Module Examples.
Import Models.

(** The sample database after the three scores of player 100. *)
Definition scored : Store := Api.handle_all Sample.st0 Sample.three_scores.

(** A kick-out won, recorded for match 1000 without a player. *)
Definition kickout : Ledger.EventData :=
  Sample.event_data 1000 None kickout_won 12.

(** The counters of one goal, one one-point and one two-point score. *)
Definition one_of_each : Report.Counters :=
  {| Report.goals := 1; Report.point_1 := 1; Report.point_2 := 1;
     Report.shots_taken := 0; Report.shots_on_target := 0;
     Report.tackles_won := 0 |}.

End Examples.

(** ** Further predicates on stores and requests *)

Module Facts.
Import Models.

(** Every event of a kind [validate] wants a player for has one. *)
Definition has_required_player (st : Store) : Prop :=
  ∀ e, e ∈ events st → event_type e ∈ Ledger.player_required_events →
       event_player e ≠ None.

(** [e'] is [e] with, at most, a correction link set where there was
    none. *)
Definition same_but_link (e e' : MatchEvent) : Prop :=
  event_id e' = event_id e ∧ event_match e' = event_match e ∧
  event_player e' = event_player e ∧ timestamp e' = timestamp e ∧
  minute e' = minute e ∧ event_type e' = event_type e ∧ data e' = data e ∧
  (corrected_event e ≠ None → corrected_event e' = corrected_event e).

(** The user cannot act for club [club]: no profile, or another club. *)
Definition outsider (st : Store) (user club : pk) : Prop :=
  ∀ profile, profiles st !! user = Some profile → profile_club profile ≠ club.

(** The match a lifecycle request is about, and its caller. *)
Definition lifecycle_target (r : Api.Request) : option (pk * pk) :=
  match r with
  | Api.StartMatch user _ i | Api.CompleteMatch user _ i => Some (user, i)
  | _ => None
  end.

End Facts.

(** ** Further predicates on handshakes *)

Module ChannelFacts.
Import Models.

(** The caller of the handshake has a profile, the target match exists
    and both belong to the same club. *)
Definition tenants_agree (st : Store) (sc : Channels.Scope) : Prop :=
  ∃ c, Channels.caller_tenant st sc = Some c ∧
       Channels.match_tenant st sc = Some c.

(** The members of group [g]. *)
Definition members (layer : gmap string (gset string)) (g : string)
  : gset string :=
  default ∅ (layer !! g).

End ChannelFacts.

(** ** [middleware.py]: the subdomain of a request *)

Module Middleware.
Import Stdlib.Strings.Ascii.

(** Python strings as lists of characters. *)
Definition chars (x : string) : list Ascii.ascii := String.list_ascii_of_string x.

(** [host.split(':')[0]] *)
Fixpoint before_colon (host : list Ascii.ascii) : list Ascii.ascii :=
  match host with
  | [] => []
  | c :: rest => if decide (c = ":"%char) then [] else c :: before_colon rest
  end.

(** [x.lstrip('.')] *)
Fixpoint lstrip_dot (x : list Ascii.ascii) : list Ascii.ascii :=
  match x with
  | [] => []
  | c :: rest => if decide (c = "."%char) then lstrip_dot rest else x
  end.

(** [host[:-n]]: everything but the last [n] characters; since [-0] is
    [0], the slice is empty for [n = 0]. *)
Definition slice_to_minus (host : list Ascii.ascii) (n : nat) : list Ascii.ascii :=
  if decide (n = 0)%nat then [] else take (length host - n) host.

(** [SubdomainMiddleware.process_request]: the value stored in
    [request.subdomain] for the host [raw] that [request.get_host()]
    returns, given [settings.ALLOWED_HOSTS] and
    [settings.DEFAULT_CLUB_SUBDOMAIN]; [None] is the [IndexError] of
    [ALLOWED_HOSTS[-1]] on an empty list. *)
Definition process_request (allowed_hosts : list (list Ascii.ascii))
    (default_club_subdomain : list Ascii.ascii) (raw : list Ascii.ascii)
  : option (list Ascii.ascii) :=
  let host := before_colon raw in
  if decide (host ∈ [chars "localhost"; chars "127.0.0.1"])
  then Some default_club_subdomain
  else
    match last allowed_hosts with
    | None => None
    | Some base_domain =>
        if decide (lstrip_dot base_domain `suffix_of` host)
        then Some (slice_to_minus host (length (lstrip_dot base_domain)))
        else Some default_club_subdomain
    end.

(** The default of [settings.ALLOWED_HOSTS]. *)
Definition default_allowed_hosts : list (list Ascii.ascii) :=
  [chars "localhost"; chars "127.0.0.1"; chars ".gaastats.ie"].

End Middleware.

(** ** [PlayerViewSet]: the roster *)

Module Roster.
Import Models Errors.

(** [Player.INJURY_STATUS_CHOICES] and the stored string of each. *)
Inductive InjuryStatus : Type := fit | injured | doubtful | suspended.

Definition injury_status_name (s : InjuryStatus) : string :=
  match s with
  | fit => "fit" | injured => "injured"
  | doubtful => "doubtful" | suspended => "suspended"
  end.

(** A row of the player table with the columns the roster views read:
    [injury_status] is the stored string. *)
Record PlayerRow : Type := {
  row_club : pk;
  row_name : string;
  row_injury_status : string;
  row_is_available : bool;
}.

#[global] Instance PlayerRow_eq_dec : EqDecision PlayerRow.
Proof. solve_decision. Defined.

(** [order_by('name')] *)
Definition by_name (a b : pk * PlayerRow) : Prop :=
  String.leb (row_name a.2) (row_name b.2) = true.

#[global] Instance by_name_dec a b : Decision (by_name a b).
Proof. unfold by_name. apply _. Defined.

(** [PlayerViewSet.get_queryset] *)
Definition get_queryset (st : Store) (rows : gmap pk PlayerRow) (user : pk)
  : list (pk * PlayerRow) :=
  match profiles st !! user with
  | None => []
  | Some profile =>
      merge_sort by_name
        (filter (λ r, row_club r.2 = profile_club profile) (map_to_list rows))
  end.

(** [PlayerViewSet.available] *)
Definition available (st : Store) (rows : gmap pk PlayerRow) (user : pk)
  : ApiError + list (pk * PlayerRow) :=
  match profiles st !! user with
  | None => inl (Response404 "User profile not found")
  | Some profile =>
      inr (merge_sort by_name
             (filter (λ r, row_club r.2 = profile_club profile ∧
                           row_is_available r.2 = true ∧
                           row_injury_status r.2 = "healthy")
                     (map_to_list rows)))
  end.

(** A roster of club 1: a fit and available player, an injured one. *)
Definition sample_rows : gmap pk PlayerRow :=
  {[ 100 := {| row_club := 1; row_name := "P"; row_injury_status := "fit";
               row_is_available := true |};
     101 := {| row_club := 1; row_name := "R"; row_injury_status := "injured";
               row_is_available := false |} ]}.

End Roster.

(** * Properties *)

Import Models Errors Invariants.
Close Scope string_scope.

(** ** Lists, sorting and the event table *)

Section list_facts.
Context {A : Type}.

Lemma elem_of_merge_sort (R : relation A) `{!∀ x y, Decision (R x y)}
    (l : list A) (x : A) :
  x ∈ merge_sort R l ↔ x ∈ l.
Proof. by rewrite merge_sort_Permutation. Qed.

Lemma find_elem_of (f : A → bool) (l : list A) (x : A) :
  List.find f l = Some x → x ∈ l ∧ f x = true.
Proof.
  intros Hf. apply List.find_some in Hf as [Hin Hx].
  split; [by apply list_elem_of_In | done].
Qed.

Lemma find_is_Some (f : A → bool) (l : list A) (x : A) :
  x ∈ l → f x = true → is_Some (List.find f l).
Proof.
  intros Hin Hx. destruct (List.find f l) eqn:Hf; [by eexists |].
  apply list_elem_of_In in Hin.
  pose proof (List.find_none _ _ Hf _ Hin) as Hn. congruence.
Qed.


Lemma fmap_inj_on_NoDup {B : Type} (f : A → B) (l : list A) (x y : A) :
  NoDup (f <$> l) → x ∈ l → y ∈ l → f x = f y → x = y.
Proof.
  induction l as [|a l IH]; intros Hnd Hx Hy Hxy.
  - by apply elem_of_nil in Hx.
  - rewrite fmap_cons in Hnd. apply NoDup_cons in Hnd as [Hna Hnd].
    apply elem_of_cons in Hx as [-> | Hx], Hy as [-> | Hy]; auto.
    + exfalso. apply Hna. rewrite Hxy. by apply list_elem_of_fmap_2.
    + exfalso. apply Hna. rewrite <- Hxy. by apply list_elem_of_fmap_2.
Qed.
End list_facts.

Lemma StronglySorted_lt_NoDup (l : list Z) : StronglySorted Z.lt l → NoDup l.
Proof.
  induction 1 as [|x l _ IH Hx]; constructor; [| done].
  intros Hin. rewrite Forall_forall in Hx. specialize (Hx _ Hin). lia.
Qed.

Lemma wf_store_NoDup (st : Store) :
  wf_store st → NoDup (event_id <$> events st).
Proof. intros [Hs _]. by apply StronglySorted_lt_NoDup. Qed.

Lemma wf_store_unique (st : Store) (e1 e2 : MatchEvent) :
  wf_store st → e1 ∈ events st → e2 ∈ events st →
  event_id e1 = event_id e2 → e1 = e2.
Proof. intros Hwf. apply fmap_inj_on_NoDup, wf_store_NoDup, Hwf. Qed.

Lemma wf_store_below (st : Store) (e : MatchEvent) :
  wf_store st → e ∈ events st → event_id e < next_event_id st.
Proof.
  intros [_ Hb] Hin. rewrite Forall_fmap, Forall_forall in Hb. by apply Hb.
Qed.

(** ** The store operations *)

Lemma save_event_ids (st : Store) (e : MatchEvent) :
  event_id <$> events (save_event st e) = event_id <$> events st.
Proof.
  unfold save_event; simpl. rewrite <- list_fmap_compose.
  apply list_fmap_ext. intros _ r _; simpl. by case_decide.
Qed.

Lemma wf_store_save (st : Store) (e : MatchEvent) :
  wf_store st → wf_store (save_event st e).
Proof. unfold wf_store. by rewrite save_event_ids. Qed.

Lemma wf_store_create (st : Store) (fields : MatchEvent) :
  wf_store st → wf_store (fst (insert_row st fields)).
Proof.
  intros [Hs Hb]. unfold wf_store, insert_row; simpl.
  rewrite fmap_app; simpl. split.
  - apply StronglySorted_app_2; [| done | repeat constructor].
    intros x1 x2 H1 ->%list_elem_of_singleton.
    rewrite Forall_forall in Hb. by apply Hb.
  - apply Forall_app. split; [| repeat constructor; lia].
    eapply Forall_impl; [exact Hb |]. simpl; intros; lia.
Qed.

(** ** [MatchEventViewSet.get_object] *)

Lemma get_queryset_elem_of (st : Store) (user : pk) (match_id : option pk)
    (e : MatchEvent) :
  e ∈ Ledger.get_queryset st user match_id ↔
  e ∈ events st ∧
  ∃ profile, profiles st !! user = Some profile ∧
             event_club st e = Some (profile_club profile) ∧
             from_option (λ mid, event_match e = mid) True match_id.
Proof.
  unfold Ledger.get_queryset.
  destruct (profiles st !! user) as [profile |].
  - destruct match_id as [mid |];
      rewrite elem_of_merge_sort, list_elem_of_filter; simpl.
    + split.
      * intros [[Hc Hm] Hin]. split; [done |]. by exists profile.
      * intros [Hin (p & [= <-] & Hc & Hm)]. done.
    + split.
      * intros [Hc Hin]. split; [done |]. by exists profile.
      * intros [Hin (p & [= <-] & Hc & _)]. done.
  - rewrite elem_of_nil. split; [done |]. by intros [_ (p & ? & _)].
Qed.

Lemma get_object_Some (st : Store) (user : pk) (match_id : option pk)
    (i : pk) (e : MatchEvent) :
  Ledger.get_object st user match_id i = Some e →
  e ∈ Ledger.get_queryset st user match_id ∧ event_id e = i.
Proof.
  intros [Hin Hid]%find_elem_of. by apply bool_decide_eq_true in Hid.
Qed.

Lemma get_object_elem_of (st : Store) (user : pk) (match_id : option pk)
    (i : pk) (e : MatchEvent) :
  Ledger.get_object st user match_id i = Some e → e ∈ events st.
Proof.
  intros [Hin _]%get_object_Some. by apply get_queryset_elem_of in Hin as [? _].
Qed.

Lemma get_object_complete (st : Store) (user : pk) (match_id : option pk)
    (e : MatchEvent) :
  wf_store st → e ∈ Ledger.get_queryset st user match_id →
  Ledger.get_object st user match_id (event_id e) = Some e.
Proof.
  intros Hwf Hin. unfold Ledger.get_object.
  destruct (find_is_Some (λ x, bool_decide (event_id x = event_id e)) _ e Hin)
    as [x Hx]; [by apply bool_decide_eq_true |].
  rewrite Hx. f_equal.
  apply find_elem_of in Hx as [Hxin Hxid]. apply bool_decide_eq_true in Hxid.
  apply get_queryset_elem_of in Hin as [Hin _].
  apply get_queryset_elem_of in Hxin as [Hxin _].
  by eapply wf_store_unique.
Qed.

(** ** What [create] and [undo] do to the store *)

(** The row [undo] hands to the store has no timestamp, so the store
    refuses it. *)
Lemma objects_create_corrected_fields (st : Store) (e : MatchEvent) :
  objects_create st (Ledger.corrected_fields e) = None.
Proof. done. Qed.

(** A row built from validated data has one. *)
Lemma objects_create_event_of (st : Store) (v : Ledger.ValidatedData) :
  objects_create st (Ledger.event_of v) = Some (insert_row st (Ledger.event_of v)).
Proof. done. Qed.

(** [undo] never writes, and what it answers depends on the row that
    [get_object] finds. *)
Lemma undo_inv (st : Store) (user : pk) (match_id : option pk) (i : pk) :
  Ledger.undo st user match_id i =
    (st, inl match Ledger.get_object st user match_id i with
             | None => Http404
             | Some e =>
                 if corrected_event e is Some _ then AlreadyCorrected
                 else IntegrityError
             end).
Proof.
  unfold Ledger.undo.
  destruct (Ledger.get_object st user match_id i) as [e |]; [| done].
  destruct (corrected_event e); [done |].
  by rewrite objects_create_corrected_fields.
Qed.

Lemma undo_store (st : Store) (user : pk) (match_id : option pk) (i : pk) :
  fst (Ledger.undo st user match_id i) = st.
Proof. by rewrite undo_inv. Qed.

Lemma is_valid_inv (st : Store) (d : Ledger.EventData) (v : Ledger.ValidatedData) :
  Ledger.is_valid st d = inr v →
  ∃ m, matches st !! Ledger.d_match d = Some m ∧
       Ledger.v_match v = (Ledger.d_match d, m) ∧
       Ledger.v_player v =
         (p ← Ledger.d_player d; (λ r, (p, r)) <$> players st !! p) ∧
       (∀ p, Ledger.d_player d = Some p → is_Some (players st !! p)) ∧
       Ledger.v_timestamp v = Ledger.d_timestamp d ∧
       Ledger.v_minute v = Ledger.d_minute d ∧
       Ledger.v_event_type v = Ledger.d_event_type d ∧
       Ledger.v_data v = Ledger.d_data d ∧
       Ledger.v_corrected_event v = Ledger.d_corrected_event d.
Proof.
  unfold Ledger.is_valid, Ledger.field_errors, Ledger.validate.
  destruct (matches st !! Ledger.d_match d) as [m |] eqn:Hm; simpl; [| done].
  destruct (Ledger.d_player d) as [p |] eqn:Hp; simpl.
  - destruct (players st !! p) as [pl |] eqn:Hpl; simpl; [| done].
    destruct (Ledger.d_corrected_event d) as [c |]; simpl;
      repeat case_decide; simpl; try done;
      intros [= <-]; exists m; simpl; split_and!; try done;
      intros ? [= <-]; by rewrite Hpl.
  - destruct (Ledger.d_corrected_event d) as [c |]; simpl;
      repeat case_decide; simpl; try done;
      intros [= <-]; exists m; simpl; split_and!; done.
Qed.

Lemma perform_create_inv (st st' : Store) (v : Ledger.ValidatedData)
    (r : ApiError + MatchEvent) :
  Ledger.perform_create st v = (st', r) →
  match r with
  | inl err => st' = st ∧ (err = OwnershipViolation ∨ err = InvalidState)
  | inr e =>
      status (snd (Ledger.v_match v)) = in_progress ∧
      (∀ i player, Ledger.v_player v = Some (i, player) →
                   player_club player = match_club (snd (Ledger.v_match v))) ∧
      e = with_id (next_event_id st) (Ledger.event_of v) ∧
      st' = set_events st (events st ++ [e]) (next_event_id st + 1)
  end.
Proof.
  unfold Ledger.perform_create. rewrite objects_create_event_of.
  destruct (Ledger.v_player v) as [[i player] |] eqn:Hp.
  - case_bool_decide as Hclub.
    + intros [= <- <-]. split; [done |]. by left.
    + case_decide as Hst.
      * intros [= <- <-]. split; [done |]. by right.
      * unfold insert_row. intros [= <- <-].
        split_and!; try done.
        by intros ? ? [= <- <-].
  - case_decide as Hst.
    + intros [= <- <-]. split; [done |]. by right.
    + unfold insert_row. intros [= <- <-].
      split_and!; done.
Qed.

Lemma create_inv (st st' : Store) (d : Ledger.EventData)
    (r : ApiError + MatchEvent) :
  Ledger.create st d = (st', r) →
  match r with
  | inl _ => st' = st
  | inr e =>
      ∃ v, Ledger.is_valid st d = inr v ∧
           status (snd (Ledger.v_match v)) = in_progress ∧
           (∀ i player, Ledger.v_player v = Some (i, player) →
                        player_club player = match_club (snd (Ledger.v_match v))) ∧
           e = with_id (next_event_id st) (Ledger.event_of v) ∧
           st' = set_events st (events st ++ [e]) (next_event_id st + 1)
  end.
Proof.
  unfold Ledger.create.
  destruct (Ledger.is_valid st d) as [err | v] eqn:Hv.
  - by intros [= <- <-].
  - intros Hp. apply perform_create_inv in Hp. destruct r as [err | e].
    + by destruct Hp.
    + exists v. by destruct Hp as (? & ? & ? & ?).
Qed.

Lemma wf_store_undo (st : Store) (user : pk) (match_id : option pk) (i : pk) :
  wf_store st → wf_store (fst (Ledger.undo st user match_id i)).
Proof. by rewrite undo_store. Qed.

Lemma wf_store_create_event (st : Store) (d : Ledger.EventData) :
  wf_store st → wf_store (fst (Ledger.create st d)).
Proof.
  intros Hwf. unfold Ledger.create, Ledger.perform_create.
  destruct (Ledger.is_valid st d) as [err | v]; [done |].
  rewrite objects_create_event_of.
  destruct (match Ledger.v_player v with
            | Some (_, player) =>
                bool_decide (player_club player ≠ match_club (Ledger.v_match v).2)
            | None => false
            end); [done |].
  case_decide; [done |].
  exact (wf_store_create st (Ledger.event_of v) Hwf).
Qed.

(** ** Counting links *)


(** ** The correction operation *)

(** C3: [undo] does not do what it sets out to do.  For an event the
    caller can see, it answers [AlreadyCorrected] when the event
    already carries a correction link and changes nothing, as claimed.
    Otherwise it asks the store for a copy without a [timestamp]; that
    column is NOT NULL, so the store raises [IntegrityError]: no copy
    is created, the original gets no link, nothing is returned, and no
    call of [undo] ever changes the store.  On the sample database,
    after the tackle is recorded as event 1: [undo] of event 1 raises,
    a second [undo] raises again instead of answering
    [AlreadyCorrected], and the ledger still holds the one event,
    without any link. *)
Theorem undo_raises_integrity_error :
  let st1 := fst (Ledger.create Sample.st0 Sample.tackle) in
  let st2 := fst (Ledger.undo st1 10 None 1) in
  (∀ (st : Store) (user : pk) (match_id : option pk) (i : pk) (e : MatchEvent),
     Ledger.get_object st user match_id i = Some e →
     (corrected_event e ≠ None →
      Ledger.undo st user match_id i = (st, inl AlreadyCorrected)) ∧
     (corrected_event e = None →
      Ledger.undo st user match_id i = (st, inl IntegrityError))) ∧
  (∀ (st : Store) (user : pk) (match_id : option pk) (i : pk),
     ∃ err, Ledger.undo st user match_id i = (st, inl err)) ∧
  (λ e, (event_id e, corrected_event e)) <$> events st1 = [(1, None)] ∧
  Ledger.undo st1 10 None 1 = (st1, inl IntegrityError) ∧
  Ledger.undo st2 10 None 1 = (st2, inl IntegrityError) ∧
  (λ e, (event_id e, corrected_event e)) <$> events st2 = [(1, None)] ∧
  link_count (events st2) = 0%nat.
Proof.
  intros st1 st2. split_and!.
  - intros st user match_id i e Hget. rewrite undo_inv, Hget.
    split; intros Hlink; destruct (corrected_event e); done.
  - intros st user match_id i. eexists. apply undo_inv.
  - vm_compute; reflexivity.
  - vm_compute; reflexivity.
  - vm_compute; reflexivity.
  - vm_compute; reflexivity.
  - vm_compute; reflexivity.
Qed.

(** On the sample database: event 1 is recorded without a link, event
    2 with a link to event 1; [undo] of event 1 raises, [undo] of
    event 2 is refused as already corrected. *)
Lemma undo_raises_integrity_error_witness :
  let st1 := fst (Ledger.create Sample.st0 Sample.tackle) in
  let st2 := fst (Ledger.create st1 (Sample.correcting Sample.tackle 1)) in
  Ledger.undo st2 10 None 1 = (st2, inl IntegrityError) ∧
  Ledger.undo st2 10 None 2 = (st2, inl AlreadyCorrected).
Proof.
  intros st1 st2.
  destruct undo_raises_integrity_error as [Hcases _]. split.
  - destruct (Hcases st2 10 None 1
                {| event_id := 1; event_match := 1000; event_player := Some 100;
                   timestamp := Some 0; minute := 5; event_type := tackle_won;
                   data := "{}"%string; corrected_event := None |})
      as [_ H]; [vm_compute; reflexivity |].
    by apply H.
  - destruct (Hcases st2 10 None 2
                {| event_id := 2; event_match := 1000; event_player := Some 100;
                   timestamp := Some 0; minute := 5; event_type := tackle_won;
                   data := "{}"%string; corrected_event := Some 1 |})
      as [H _]; [vm_compute; reflexivity |].
    by apply H.
Defined.

(** ** Requests and the invariants they keep *)

Lemma set_match_status_store (new : MatchStatus) (st : Store) (user : pk)
    (sf : option string) (i : pk) :
  let st' := fst (Lifecycle.set_match_status new st user sf i) in
  events st' = events st ∧ next_event_id st' = next_event_id st ∧
  profiles st' = profiles st ∧ players st' = players st ∧
  ∀ j, match_club <$> matches st' !! j = match_club <$> matches st !! j.
Proof.
  unfold Lifecycle.set_match_status.
  destruct (Lifecycle.get_object st user sf i) as [m |] eqn:Hget; simpl;
    [| done].
  split_and!; try done. intros j.
  destruct (decide (i = j)) as [<- | Hne].
  - rewrite lookup_insert_eq. unfold Lifecycle.get_object in Hget.
    destruct (profiles st !! user); simpl in Hget; [| done].
    destruct (matches st !! i) as [m0 |]; simpl in Hget; [| done].
    case_match; [| done]. by injection Hget as ->.
  - by rewrite lookup_insert_ne.
Qed.

Lemma wf_store_handle (st : Store) (r : Api.Request) :
  wf_store st → wf_store (Api.handle st r).
Proof.
  intros Hwf. destruct r as [d | user mid i | user sf i | user sf i]; simpl.
  - by apply wf_store_create_event.
  - by apply wf_store_undo.
  - destruct (set_match_status_store in_progress st user sf i) as (He & Hn & _).
    unfold wf_store, Lifecycle.start_match. by rewrite He, Hn.
  - destruct (set_match_status_store completed st user sf i) as (He & Hn & _).
    unfold wf_store, Lifecycle.complete_match. by rewrite He, Hn.
Qed.

Lemma wf_store_handle_all (st : Store) (rs : list Api.Request) :
  wf_store st → wf_store (Api.handle_all st rs).
Proof.
  unfold Api.handle_all. revert st.
  induction rs as [|r rs IH]; intros st Hwf; simpl; [done |].
  by apply IH, wf_store_handle.
Qed.

(** How each request changes the event table: it is left alone, or (a
    successful [create]) grows by one row that carries the link of the
    request. *)
Lemma handle_events (st : Store) (r : Api.Request) :
  let st' := Api.handle st r in
  events st' = events st ∨
  (∃ e, events st' = events st ++ [e] ∧ event_id e = next_event_id st ∧
        match r with
        | Api.Create d => corrected_event e = Ledger.d_corrected_event d
        | _ => False
        end).
Proof.
  destruct r as [d | user mid i | user sf i | user sf i]; simpl.
  - destruct (Ledger.create st d) as [st' [err | e]] eqn:Hc;
      apply create_inv in Hc; simpl.
    + left. by rewrite Hc.
    + right. destruct Hc as (v & Hv & _ & _ & -> & ->). simpl.
      eexists. split_and!; try done.
      apply is_valid_inv in Hv as (m & _ & _ & _ & _ & _ & _ & _ & _ & Hl).
      done.
  - left. by rewrite undo_store.
  - left. by destruct (set_match_status_store in_progress st user sf i) as [? _].
  - left. by destruct (set_match_status_store completed st user sf i) as [? _].
Qed.












(** ** Aggregation and the correction link *)

Section merge_sort_fmap.
Context {A : Type} (R : relation A) `{!∀ x y, Decision (R x y)}.
Context (g : A → A) (Hg : ∀ x y, R (g x) (g y) ↔ R x y).


Local Abbreviation lift := (fmap (M:=option) (fmap (M:=list) g)).




End merge_sort_fmap.












(** ** The team total *)

(** C2: the stats endpoints weigh a two-point score by two, the match
    report and the stored projection [total_club_score] by one.  After
    a goal, a one-point and a two-point score on a fresh match the
    match summary and the player summary give 6, the report gives 5,
    and so does [total_club_score] on the stored counts 1, 1, 1; in general
    the report total and the stored total fall short of
    [goals*3 + one-point + two-point*2] by the number of two-point
    scores. *)
Theorem two_point_weight_differs :
  let st := Api.handle_all Sample.st0 Sample.three_scores in
  (∃ s, Stats.match_summary st 10 (Some 1000) = inr s ∧
        Stats.ms_total s = 6%nat) ∧
  (∃ s, Stats.player_summary st 10 (Some 100) (Some 1000) = inr s ∧
        Stats.ps_total_score s = 6%nat) ∧
  (Report.generate_match_report st 1000).2 = 5%nat ∧
  total_club_score Sample.scored_match = 5%nat ∧
  (∀ team, (Report.total_score team + Report.point_2 team)%nat
           = (Report.goals team * 3 + Report.point_1 team
              + Report.point_2 team * 2)%nat) ∧
  (∀ m, (total_club_score m + club_2point m)%nat
        = (club_goals m * 3 + club_1point m + club_2point m * 2)%nat).
Proof.
  intros st. split_and!.
  - eexists. split; [vm_compute; reflexivity | reflexivity].
  - eexists. split; [vm_compute; reflexivity | reflexivity].
  - vm_compute; reflexivity.
  - reflexivity.
  - intros team. unfold Report.total_score. lia.
  - intros m. unfold total_club_score. lia.
Qed.

(** ** The lifecycle actions *)

Lemma lifecycle_get_object_visible (st : Store) (user i : pk)
    (profile : UserProfile) (m : Match) :
  profiles st !! user = Some profile → matches st !! i = Some m →
  match_club m = profile_club profile →
  Lifecycle.get_object st user None i = Some m.
Proof.
  intros Hp Hm Hc. unfold Lifecycle.get_object. rewrite Hp; simpl.
  rewrite Hm; simpl. rewrite bool_decide_eq_true_2 by done. done.
Qed.

Lemma set_match_status_refusal (new : MatchStatus) (st st' : Store)
    (user i : pk) (sf : option string) (err : ApiError) :
  Lifecycle.set_match_status new st user sf i = (st', inl err) →
  err = Http404 ∧ st' = st.
Proof.
  unfold Lifecycle.set_match_status.
  destruct (Lifecycle.get_object st user sf i); [done |].
  by intros [= <- <-].
Qed.

(** C4 (as amended): the lifecycle actions check no transition.  For a
    match of the caller's club, whatever its status, [start_match]
    succeeds and stores [in_progress] and [complete_match] succeeds and
    stores [completed]; nothing but the status of that match changes.
    The only refusal is [Http404] for a match the caller cannot see,
    which leaves the store unchanged. *)
Theorem lifecycle_actions_unconditional (st : Store) (user i : pk) :
  (∀ profile m,
     profiles st !! user = Some profile → matches st !! i = Some m →
     match_club m = profile_club profile →
     (∃ st',
        Lifecycle.start_match st user None i
          = (st', inr (set_status m in_progress)) ∧
        status <$> matches st' !! i = Some in_progress ∧
        matches st' = <[i := set_status m in_progress]> (matches st) ∧
        events st' = events st ∧ players st' = players st ∧
        profiles st' = profiles st) ∧
     (∃ st',
        Lifecycle.complete_match st user None i
          = (st', inr (set_status m completed)) ∧
        status <$> matches st' !! i = Some completed ∧
        matches st' = <[i := set_status m completed]> (matches st) ∧
        events st' = events st ∧ players st' = players st ∧
        profiles st' = profiles st)) ∧
  (∀ sf st' err,
     (Lifecycle.start_match st user sf i = (st', inl err) ∨
      Lifecycle.complete_match st user sf i = (st', inl err)) →
     err = Http404 ∧ st' = st).
Proof.
  split.
  - intros profile m Hp Hm Hc.
    split; unfold Lifecycle.start_match, Lifecycle.complete_match,
             Lifecycle.set_match_status;
      rewrite (lifecycle_get_object_visible st user i profile m) by done;
      (eexists; split; [reflexivity |]); simpl;
      rewrite lookup_insert_eq; done.
  - intros sf st' err [H | H]; by eapply set_match_status_refusal.
Qed.

(** On the sample database: user 10 starts the completed match 1002;
    user 20, of another club, is refused. *)
Lemma lifecycle_actions_unconditional_witness :
  (∃ st', Lifecycle.start_match Sample.st0 10 None 1002
            = (st', inr (set_status (Sample.fresh_match 1 completed post_match)
                                    in_progress))) ∧
  Lifecycle.start_match Sample.st0 20 None 1002 = (Sample.st0, inl Http404).
Proof.
  split.
  - destruct (lifecycle_actions_unconditional Sample.st0 10 1002) as [Hok _].
    destruct (Hok {| profile_club := 1 |}
                  (Sample.fresh_match 1 completed post_match))
      as [(st' & Hst' & _) _]; [vm_compute; reflexivity .. |].
    by exists st'.
  - destruct (lifecycle_actions_unconditional Sample.st0 20 1002) as [_ Hno].
    destruct (Lifecycle.start_match Sample.st0 20 None 1002)
      as [st' [err | m]] eqn:Hs.
    + destruct (Hno None st' err (or_introl Hs)) as [-> ->]. reflexivity.
    + exfalso. vm_compute in Hs. discriminate.
Defined.

(** C4 (as stated) fails: [start_match] on the completed match 1002
    succeeds and stores [in_progress], and [complete_match] on the
    scheduled match 1001 succeeds and stores [completed]; neither
    transition is in the legal set. *)
Lemma start_match_from_completed :
  status <$> matches Sample.st0 !! 1002 = Some completed ∧
  Lifecycle.spec_legal_transition completed in_progress = false ∧
  (∃ st' m, Lifecycle.start_match Sample.st0 10 None 1002 = (st', inr m) ∧
            status <$> matches st' !! 1002 = Some in_progress) ∧
  status <$> matches Sample.st0 !! 1001 = Some scheduled ∧
  Lifecycle.spec_legal_transition scheduled completed = false ∧
  (∃ st' m, Lifecycle.complete_match Sample.st0 10 None 1001 = (st', inr m) ∧
            status <$> matches st' !! 1001 = Some completed).
Proof.
  split_and!; try (vm_compute; reflexivity);
    do 2 eexists; split; vm_compute; reflexivity.
Qed.

(** ** Primary keys and listing order *)

#[local] Instance by_minute_total : Total Ledger.by_minute.
Proof. intros e1 e2. unfold Ledger.by_minute. lia. Qed.

Lemma StronglySorted_fmap_filter {A : Type} (R : relation Z) (f : A → Z)
    (P : A → Prop) `{!∀ x, Decision (P x)} (l : list A) :
  StronglySorted R (f <$> l) → StronglySorted R (f <$> filter P l).
Proof.
  induction l as [|a l IH]; [done |].
  rewrite fmap_cons, filter_cons. intros [Ha Hl]%StronglySorted_cons.
  case_decide; [| by apply IH].
  rewrite fmap_cons. apply StronglySorted_cons. split; [| by apply IH].
  rewrite Forall_forall in Ha. apply Forall_forall. intros y Hy.
  apply list_elem_of_fmap in Hy as (x & -> & [_ Hx]%list_elem_of_filter).
  apply Ha. by apply list_elem_of_fmap_2.
Qed.

(** C5 (as amended): a successful [create] gives the new event the next
    primary key of the store, whatever the request says (two requests
    that succeed on the same store get the same key), larger than the
    key of every earlier event; over any sequence of requests the keys
    stay strictly increasing in arrival order, for the whole table and
    within each match.  Listing and aggregation do not follow that key:
    the event listing of a match and the events the report folds are
    ordered by the user-supplied minute. *)
Theorem create_assigns_next_key :
  (∀ (st st' : Store) (d : Ledger.EventData) (e : MatchEvent),
     wf_store st → Ledger.create st d = (st', inr e) →
     event_id e = next_event_id st ∧
     Forall (λ x, event_id x < event_id e) (events st) ∧
     events st' = events st ++ [e] ∧
     next_event_id st' = event_id e + 1 ∧
     ∀ d' st'' e', Ledger.create st d' = (st'', inr e') →
                   event_id e' = event_id e) ∧
  (∀ (st : Store) (rs : list Api.Request) (m : pk),
     wf_store st →
     StronglySorted Z.lt (event_id <$> events (Api.handle_all st rs)) ∧
     StronglySorted Z.lt
       (event_id <$> filter (λ e, event_match e = m)
                            (events (Api.handle_all st rs)))) ∧
  (∀ (st : Store) (user m : pk),
     Sorted Ledger.by_minute (Ledger.get_queryset st user (Some m)) ∧
     Sorted Ledger.by_minute (Report.match_events st m)).
Proof.
  split_and!.
  - intros st st' d e Hwf Hc.
    apply create_inv in Hc as (v & _ & _ & _ & -> & ->). simpl.
    split_and!; try done.
    + apply Forall_forall. intros x Hx. by apply wf_store_below.
    + intros d' st'' e' Hc'.
      by apply create_inv in Hc' as (v' & _ & _ & _ & -> & _).
  - intros st rs m Hwf.
    destruct (wf_store_handle_all st rs Hwf) as [Hs _].
    split; [done | by apply StronglySorted_fmap_filter].
  - intros st user m. split.
    + unfold Ledger.get_queryset. destruct (profiles st !! user).
      * apply Sorted_merge_sort, _.
      * constructor.
    + apply Sorted_merge_sort, _.
Qed.

(** On the sample database: the first event gets key 1, and the keys
    of match 1000 after three scores are increasing. *)
Lemma create_assigns_next_key_witness :
  (∃ st' e, Ledger.create Sample.st0 Sample.tackle = (st', inr e) ∧
            event_id e = 1) ∧
  StronglySorted Z.lt
    (event_id <$> filter (λ e, event_match e = 1000)
       (events (Api.handle_all Sample.st0 Sample.three_scores))).
Proof.
  assert (Hwf0 : wf_store Sample.st0) by (split; constructor).
  destruct create_assigns_next_key as (Hkey & Hinc & _). split.
  - destruct (Ledger.create Sample.st0 Sample.tackle) as [st' [err | e]] eqn:Hc.
    + exfalso. vm_compute in Hc. discriminate.
    + exists st', e. split; [done |].
      destruct (Hkey Sample.st0 st' Sample.tackle e Hwf0 Hc) as (-> & _).
      reflexivity.
  - by destruct (Hinc Sample.st0 Sample.three_scores 1000 Hwf0).
Defined.

(** C5 (as stated) fails: an event at minute 45 is recorded before an
    event at minute 30; the listing of the match and the events the
    report folds come in the order 2, 1, against the order of the
    keys. *)
Lemma listing_follows_minute_not_arrival :
  let st :=
    Api.handle_all Sample.st0
      [Api.Create (Sample.event_data 1000 (Some 100) tackle_won 45);
       Api.Create (Sample.event_data 1000 (Some 100) tackle_won 30)] in
  (λ e, (event_id e, minute e)) <$> events st = [(1, 45%nat); (2, 30%nat)] ∧
  event_id <$> Ledger.get_queryset st 10 (Some 1000) = [2; 1] ∧
  event_id <$> Report.match_events st 1000 = [2; 1] ∧
  ¬ Sorted Z.lt (event_id <$> Ledger.get_queryset st 10 (Some 1000)).
Proof.
  intros st.
  assert (Hq : event_id <$> Ledger.get_queryset st 10 (Some 1000) = [2; 1])
    by (vm_compute; reflexivity).
  split_and!; try (vm_compute; reflexivity).
  rewrite Hq. intros Hs. apply Sorted_inv in Hs as [_ Hhd].
  apply HdRel_inv in Hhd. lia.
Qed.

(** ** The subscribe handshake *)

(** What [connect] answers, by the cases of its lookups.  Where the
    match and the profile are both found, the clubs are read on the
    event loop, which raises; the layer and the consumer stay as they
    are in every case. *)
Lemma connect_cases (st : Store) (layer : gmap string (gset string))
    (self : Channels.Consumer) :
  Channels.connect st layer self =
    (layer, self,
     match Channels.scope_user (Channels.scope self) with
     | None => Channels.Closed 4001
     | Some user =>
         if Channels.is_authenticated user
         then match matches st !! Channels.url_match_id (Channels.scope self),
                    profiles st !! Channels.user_id user with
              | Some _, Some _ => Channels.SynchronousOnlyOperation
              | _, _ => Channels.Closed 4004
              end
         else Channels.Closed 4001
     end).
Proof.
  unfold Channels.connect.
  destruct (Channels.scope_user (Channels.scope self)) as [user |]; [| done].
  destruct (Channels.is_authenticated user); simpl; [| done].
  destruct (matches st !! Channels.url_match_id (Channels.scope self));
    destruct (profiles st !! Channels.user_id user); done.
Qed.

Lemma connect_store (st : Store) (layer : gmap string (gset string))
    (self : Channels.Consumer) :
  (Channels.connect st layer self).1 = (layer, self).
Proof. by rewrite connect_cases. Qed.

Lemma connect_found (st : Store) (layer : gmap string (gset string))
    (self : Channels.Consumer) (cu cm : pk) :
  Channels.caller_tenant st (Channels.scope self) = Some cu →
  Channels.match_tenant st (Channels.scope self) = Some cm →
  Channels.connect st layer self
  = (layer, self, Channels.SynchronousOnlyOperation).
Proof.
  intros Hcu Hcm. rewrite connect_cases.
  unfold Channels.caller_tenant, Channels.match_tenant in *.
  destruct (Channels.scope_user (Channels.scope self)) as [user |];
    simpl in Hcu; [| done].
  destruct (Channels.is_authenticated user); simpl in *; [| done].
  destruct (matches st !! Channels.url_match_id (Channels.scope self));
    simpl in Hcm; [| done].
  destruct (profiles st !! Channels.user_id user); simpl in Hcu; done.
Qed.

Lemma broadcast_to_match_empty (mid : pk) (ty data : string) :
  Channels.broadcast_to_match ∅ mid ty data = [].
Proof.
  unfold Channels.broadcast_to_match. case_decide; [| done].
  by rewrite lookup_empty; simpl; rewrite elements_empty.
Qed.

(** No step puts a channel into a group of an empty layer, and nothing
    is sent while the layer is empty. *)
Lemma silent_step (sys : Channels.System) (a : Channels.Action) :
  Channels.sys_layer sys = ∅ → Channels.sys_log sys = [] →
  Channels.sys_layer (Channels.sys_step sys a) = ∅ ∧
  Channels.sys_log (Channels.sys_step sys a) = [].
Proof.
  intros Hlayer Hlog. destruct a as [st channel sc | channel | mid ty d]; simpl.
  - by rewrite connect_cases.
  - destruct (Channels.sys_consumers sys !! channel) as [self |]; [| done].
    simpl. split; [| done]. unfold Channels.disconnect.
    destruct (Channels.match_group_name self) as [g |]; [| done].
    unfold Channels.group_discard. by rewrite Hlayer, lookup_empty.
  - split; [done |]. by rewrite Hlog, Hlayer, broadcast_to_match_empty.
Qed.

Lemma silent_run (actions : list Channels.Action) (sys : Channels.System) :
  Channels.sys_layer sys = ∅ → Channels.sys_log sys = [] →
  Channels.sys_layer (Channels.run sys actions) = ∅ ∧
  Channels.sys_log (Channels.run sys actions) = [].
Proof.
  unfold Channels.run. revert sys.
  induction actions as [|a actions IH]; intros sys Hlayer Hlog; simpl; [done |].
  destruct (silent_step sys a Hlayer Hlog) as [Hlayer' Hlog']. by apply IH.
Qed.

(** C6: a handshake whose caller belongs to a club other than the one
    owning the target match does not end with the close code 4003 the
    handler has for it.  The match and the profile are found, and the
    comparison of their clubs reads [match.club] on the event loop,
    which raises [SynchronousOnlyOperation] before [close(code=4003)]
    is reached; no handshake at all is closed with 4003.  A missing
    identity is closed with 4001 and a missing match or profile with
    4004, as claimed, and the rest of the claim holds: the channel
    layer is left as it was, and over any sequence of handshakes,
    disconnects and broadcasts in which every handshake of a connection
    is of that kind, the connection is never in a group and no
    broadcast is ever sent to it.  On the sample database the
    handshake of user 20 (club 2) for match 1000 (club 1) raises. *)
Theorem mismatched_handshake_raises :
  (∀ (st : Store) (layer : gmap string (gset string)) (self : Channels.Consumer),
     Channels.tenant_mismatch st (Channels.scope self) →
     Channels.connect st layer self
     = (layer, self, Channels.SynchronousOnlyOperation)) ∧
  (∀ (st : Store) (layer layer' : gmap string (gset string))
     (self self' : Channels.Consumer),
     Channels.connect st layer self ≠ (layer', self', Channels.Closed 4003)) ∧
  (∀ (st : Store) (layer : gmap string (gset string)) (self : Channels.Consumer),
     (∀ user, Channels.scope_user (Channels.scope self) = Some user →
              Channels.is_authenticated user = false) →
     Channels.connect st layer self = (layer, self, Channels.Closed 4001)) ∧
  (∀ (st : Store) (layer : gmap string (gset string)) (self : Channels.Consumer)
     (user : Channels.User),
     Channels.scope_user (Channels.scope self) = Some user →
     Channels.is_authenticated user = true →
     Channels.caller_tenant st (Channels.scope self) = None ∨
     Channels.match_tenant st (Channels.scope self) = None →
     Channels.connect st layer self = (layer, self, Channels.Closed 4004)) ∧
  (∀ (ch : string) (actions : list Channels.Action),
     (∀ st sc, Channels.Handshake st ch sc ∈ actions →
               Channels.tenant_mismatch st sc) →
     let sys := Channels.run Channels.init actions in
     (∀ g s, Channels.sys_layer sys !! g = Some s → ch ∉ s) ∧
     (∀ m, (ch, m) ∉ Channels.sys_log sys)) ∧
  Channels.connect Sample.st0 ∅ (Sample.consumer "c2" Sample.foreign_scope)
  = (∅, Sample.consumer "c2" Sample.foreign_scope,
     Channels.SynchronousOnlyOperation).
Proof.
  split_and!.
  - intros st layer self (cu & cm & Hcu & Hcm & _). by eapply connect_found.
  - intros st layer layer' self self'. rewrite connect_cases.
    destruct (Channels.scope_user (Channels.scope self)) as [user |]; [| done].
    destruct (Channels.is_authenticated user); [| done].
    destruct (matches st !! Channels.url_match_id (Channels.scope self));
      destruct (profiles st !! Channels.user_id user); done.
  - intros st layer self Hanon. rewrite connect_cases.
    destruct (Channels.scope_user (Channels.scope self)) as [user |]; [| done].
    by rewrite (Hanon user eq_refl).
  - intros st layer self user Hu Hauth Hnone. rewrite connect_cases.
    unfold Channels.caller_tenant, Channels.match_tenant in *.
    rewrite Hu in *; simpl in *. rewrite Hauth in *; simpl in *.
    destruct (matches st !! Channels.url_match_id (Channels.scope self));
      destruct (profiles st !! Channels.user_id user); simpl in *; try done.
    by destruct Hnone.
  - intros ch actions _ sys.
    destruct (silent_run actions Channels.init) as [Hlayer Hlog]; [done .. |].
    subst sys. rewrite Hlayer, Hlog. split.
    + intros g s Hs. by rewrite lookup_empty in Hs.
    + intros m Hin. by apply elem_of_nil in Hin.
  - vm_compute; reflexivity.
Qed.

(** On the sample database: user 20 of club 2 asks for match 1000 of
    club 1 on channel c2; a handshake without a user and one for a
    missing match; nothing is sent to c2 in the sample session. *)
Lemma mismatched_handshake_raises_witness :
  Channels.connect Sample.st0 ∅ (Sample.consumer "c2" Sample.foreign_scope)
  = (∅, Sample.consumer "c2" Sample.foreign_scope,
     Channels.SynchronousOnlyOperation) ∧
  Channels.connect Sample.st0 ∅ (Sample.consumer "c3" Sample.anonymous_scope)
  = (∅, Sample.consumer "c3" Sample.anonymous_scope, Channels.Closed 4001) ∧
  Channels.connect Sample.st0 ∅ (Sample.consumer "c4" Sample.missing_match_scope)
  = (∅, Sample.consumer "c4" Sample.missing_match_scope, Channels.Closed 4004) ∧
  (("c2"%string,
    {| Channels.msg_type := "score_update"%string;
       Channels.msg_data := "{}"%string |})
     ∉ Channels.sys_log (Channels.run Channels.init Sample.session)).
Proof.
  destruct mismatched_handshake_raises
    as (Hraise & _ & Hanon & Hmiss & Hnever & _).
  assert (Hmis : Channels.tenant_mismatch Sample.st0 Sample.foreign_scope).
  { exists 2, 1. split_and!; [vm_compute; reflexivity .. | lia]. }
  split_and!.
  - exact (Hraise Sample.st0 ∅ (Sample.consumer "c2" Sample.foreign_scope) Hmis).
  - apply (Hanon Sample.st0 ∅ (Sample.consumer "c3" Sample.anonymous_scope)).
    intros user Hu. discriminate.
  - apply (Hmiss Sample.st0 ∅ (Sample.consumer "c4" Sample.missing_match_scope)
             {| Channels.user_id := 10; Channels.is_authenticated := true |});
      [reflexivity | reflexivity |].
    right. vm_compute. reflexivity.
  - apply (Hnever "c2"%string Sample.session).
    intros st sc Hin. unfold Sample.session in Hin.
    repeat (apply elem_of_cons in Hin as [Hin | Hin];
            [try discriminate; try (injection Hin as -> ?) |]).
    + by subst.
    + by apply elem_of_nil in Hin.
Defined.

(** ** Recording an event *)

Lemma perform_create_foreign (st : Store) (v : Ledger.ValidatedData)
    (i : pk) (player : Player) :
  Ledger.v_player v = Some (i, player) →
  player_club player ≠ match_club (snd (Ledger.v_match v)) →
  Ledger.perform_create st v = (st, inl OwnershipViolation).
Proof.
  intros Hp Hne. unfold Ledger.perform_create. rewrite Hp.
  by rewrite bool_decide_eq_true_2.
Qed.

Lemma perform_create_not_in_progress (st : Store) (v : Ledger.ValidatedData) :
  status (snd (Ledger.v_match v)) ≠ in_progress →
  ∃ err, Ledger.perform_create st v = (st, inl err) ∧
         (err = InvalidState ∨ err = OwnershipViolation) ∧
         ((∀ i player, Ledger.v_player v = Some (i, player) →
                       player_club player = match_club (snd (Ledger.v_match v))) →
          err = InvalidState).
Proof.
  intros Hst. unfold Ledger.perform_create.
  destruct (Ledger.v_player v) as [[i player] |].
  - case_bool_decide as Hclub.
    + exists OwnershipViolation. split_and!; [done | by right |].
      intros Hown. by specialize (Hown i player eq_refl).
    + rewrite decide_True by done.
      exists InvalidState. split_and!; [done | by left | done].
  - rewrite decide_True by done.
    exists InvalidState. split_and!; [done | by left | done].
Qed.

(** C7 (as amended): an event is recorded only for a match whose status
    is [in_progress]; the entry mode is never consulted, so a completed
    match is refused in post-match mode as well.  For any other status
    [perform_create] fails and leaves the store unchanged; the failure
    is [InvalidState] when the request's player (if any) belongs to the
    match's club, and [OwnershipViolation], which is checked first,
    otherwise. *)
Theorem create_requires_in_progress :
  (∀ (st : Store) (v : Ledger.ValidatedData),
     status (snd (Ledger.v_match v)) ≠ in_progress →
     ∃ err, Ledger.perform_create st v = (st, inl err) ∧
            (err = InvalidState ∨ err = OwnershipViolation) ∧
            ((∀ i player, Ledger.v_player v = Some (i, player) →
                player_club player = match_club (snd (Ledger.v_match v))) →
             err = InvalidState)) ∧
  (∀ (st st' : Store) (d : Ledger.EventData) (err : ApiError),
     Ledger.create st d = (st', inl err) → st' = st) ∧
  (∀ (st st' : Store) (d : Ledger.EventData) (e : MatchEvent),
     Ledger.create st d = (st', inr e) →
     ∃ m, matches st !! Ledger.d_match d = Some m ∧ status m = in_progress).
Proof.
  split_and!.
  - apply perform_create_not_in_progress.
  - intros st st' d err Hc. by apply create_inv in Hc.
  - intros st st' d e Hc.
    apply create_inv in Hc as (v & Hv & Hst & _).
    apply is_valid_inv in Hv as (m & Hm & Hvm & _).
    exists m. rewrite Hvm in Hst. done.
Qed.

(** On the sample database: a tackle by the club's own player on the
    completed match 1002, which is in post-match entry mode, is refused;
    the same tackle on the in-progress match 1000 is recorded. *)
Lemma create_requires_in_progress_witness :
  entry_mode (snd (Ledger.v_match Sample.own_on_completed)) = post_match ∧
  Ledger.perform_create Sample.st0 Sample.own_on_completed
    = (Sample.st0, inl InvalidState) ∧
  fst (Ledger.create Sample.st0
         (Sample.event_data 1002 (Some 100) tackle_won 5)) = Sample.st0 ∧
  (∃ m, matches Sample.st0 !! 1000 = Some m ∧ status m = in_progress).
Proof.
  destruct create_requires_in_progress as (Hrefuse & Hsame & Hok).
  split_and!; [reflexivity | | |].
  - destruct (Hrefuse Sample.st0 Sample.own_on_completed)
      as (err & Herr & _ & Hstate); [simpl; discriminate |].
    rewrite Herr. rewrite Hstate; [done |].
    intros i player [= <- <-]. reflexivity.
  - destruct (Ledger.create Sample.st0
                (Sample.event_data 1002 (Some 100) tackle_won 5))
      as [st' [err | e]] eqn:Hc.
    + exact (Hsame _ _ _ _ Hc).
    + exfalso. vm_compute in Hc. discriminate.
  - destruct (Ledger.create Sample.st0 Sample.tackle) as [st' [err | e]] eqn:Hc.
    + exfalso. vm_compute in Hc. discriminate.
    + exact (Hok _ _ _ _ Hc).
Defined.

(** C7 (as stated) fails: for the scheduled match 1001 and a player of
    another club the request is refused with [OwnershipViolation], not
    with [InvalidState]. *)
Lemma ownership_reported_before_state :
  status (snd (Ledger.v_match Sample.foreign_on_scheduled)) = scheduled ∧
  Ledger.perform_create Sample.st0 Sample.foreign_on_scheduled
    = (Sample.st0, inl OwnershipViolation) ∧
  Ledger.create Sample.st0 (Sample.event_data 1001 (Some 200) tackle_won 5)
    = (Sample.st0, inl OwnershipViolation) ∧
  OwnershipViolation ≠ InvalidState.
Proof. split_and!; try (vm_compute; reflexivity). discriminate. Qed.

Lemma player_owned_handle (st : Store) (r : Api.Request) :
  wf_store st → player_owned st → player_owned (Api.handle st r).
Proof.
  intros Hwf Hown.
  destruct r as [d | user mid i | user sf i | user sf i]; simpl.
  - destruct (Ledger.create st d) as [st' [err | e]] eqn:Hc;
      apply create_inv in Hc; simpl; [by subst |].
    destruct Hc as (v & Hv & _ & Hclub & -> & ->).
    apply is_valid_inv in Hv as (m & Hm & Hvm & Hvp & _).
    intros x p; simpl.
    intros [Hx | ->%list_elem_of_singleton]%elem_of_app Hp; [by eapply Hown |].
    simpl in *. rewrite Hvm; simpl.
    destruct (Ledger.v_player v) as [[p' player] |] eqn:Hpl; simpl in Hp;
      [| done].
    injection Hp as ->. exists player, m. split_and!; [| done |].
    + destruct (Ledger.d_player d) as [q |]; simpl in Hvp; [| done].
      destruct (players st !! q) as [pl |] eqn:Hq; simpl in Hvp; [| done].
      by injection Hvp as <- <-.
    + rewrite (Hclub p player eq_refl), Hvm. done.
  - by rewrite undo_store.
  - destruct (set_match_status_store in_progress st user sf i)
      as (He & _ & _ & Hpl & Hm).
    intros x p. unfold Lifecycle.start_match. rewrite He, Hpl. intros Hx Hp.
    destruct (Hown x p Hx Hp) as (player & m & Hplayer & Hmatch & Hclub).
    specialize (Hm (event_match x)). rewrite Hmatch in Hm.
    destruct (matches _ !! event_match x) as [m' |]; [| done].
    exists player, m'. split_and!; [done | done |].
    injection Hm as Hm. congruence.
  - destruct (set_match_status_store completed st user sf i)
      as (He & _ & _ & Hpl & Hm).
    intros x p. unfold Lifecycle.complete_match. rewrite He, Hpl. intros Hx Hp.
    destruct (Hown x p Hx Hp) as (player & m & Hplayer & Hmatch & Hclub).
    specialize (Hm (event_match x)). rewrite Hmatch in Hm.
    destruct (matches _ !! event_match x) as [m' |]; [| done].
    exists player, m'. split_and!; [done | done |].
    injection Hm as Hm. congruence.
Qed.

Lemma player_owned_handle_all (st : Store) (rs : list Api.Request) :
  wf_store st → player_owned st → player_owned (Api.handle_all st rs).
Proof.
  unfold Api.handle_all. revert st.
  induction rs as [|r rs IH]; intros st Hwf Hown; simpl; [done |].
  apply IH; [by apply wf_store_handle | by apply player_owned_handle].
Qed.

(** C8: [perform_create] refuses validated data whose player belongs
    to a club other than the match's with [OwnershipViolation] and
    leaves the store unchanged, and so does [create] for a request that
    names such a player (and passes field validation).  Hence, over any
    sequence of requests to record and undo events and to start and
    complete matches, every event with a player has that player in the
    club owning the event's match. *)
Theorem foreign_player_rejected :
  (∀ (st : Store) (v : Ledger.ValidatedData) (i : pk) (player : Player),
     Ledger.v_player v = Some (i, player) →
     player_club player ≠ match_club (snd (Ledger.v_match v)) →
     Ledger.perform_create st v = (st, inl OwnershipViolation)) ∧
  (∀ (st : Store) (d : Ledger.EventData) (p : pk) (player : Player) (m : Match),
     Ledger.d_player d = Some p → players st !! p = Some player →
     matches st !! Ledger.d_match d = Some m →
     player_club player ≠ match_club m →
     Ledger.field_errors st d = [] →
     Ledger.create st d = (st, inl OwnershipViolation)) ∧
  (∀ (st : Store) (rs : list Api.Request),
     wf_store st → player_owned st → player_owned (Api.handle_all st rs)).
Proof.
  split_and!.
  - apply perform_create_foreign.
  - intros st d p player m Hp Hplayer Hm Hne Hfield.
    unfold Ledger.create, Ledger.is_valid. rewrite Hfield, Hm, Hp; simpl.
    rewrite Hplayer; simpl. unfold Ledger.validate; simpl.
    rewrite decide_False by (by intros [_ ?]).
    by eapply perform_create_foreign.
  - apply player_owned_handle_all.
Qed.

(** On the sample database: player 200 of club 2 in matches of club 1,
    and the ledger after three scores. *)
Lemma foreign_player_rejected_witness :
  Ledger.perform_create Sample.st0 Sample.foreign_on_scheduled
    = (Sample.st0, inl OwnershipViolation) ∧
  Ledger.create Sample.st0 (Sample.event_data 1000 (Some 200) tackle_won 5)
    = (Sample.st0, inl OwnershipViolation) ∧
  player_owned (Api.handle_all Sample.st0 Sample.three_scores).
Proof.
  destruct foreign_player_rejected as (Hperform & Hcreate & Hinv). split_and!.
  - apply (Hperform Sample.st0 Sample.foreign_on_scheduled 200
             {| player_club := 2; player_name := "Q"%string;
                player_number := None |}); [reflexivity |]. simpl. lia.
  - apply (Hcreate Sample.st0 _ 200
             {| player_club := 2; player_name := "Q"%string;
                player_number := None |}
             (Sample.fresh_match 1 in_progress live));
      try (vm_compute; reflexivity). simpl. lia.
  - apply Hinv; [split; constructor |].
    intros e p He. by apply elem_of_nil in He.
Defined.

(** ** The snapshot *)

Lemma get_match_state_score (st : Store) (i : pk) :
  Channels.state_score <$> Channels.get_match_state st i
  = stored_score <$> matches st !! i.
Proof.
  unfold Channels.get_match_state. by destruct (matches st !! i).
Qed.

Lemma handle_stored_score (st : Store) (r : Api.Request) (i : pk) :
  stored_score <$> matches (Api.handle st r) !! i
  = stored_score <$> matches st !! i.
Proof.
  assert (Hset : ∀ new user sf j,
    stored_score <$> matches (Lifecycle.set_match_status new st user sf j).1 !! i
    = stored_score <$> matches st !! i).
  { intros new user sf j. unfold Lifecycle.set_match_status.
    destruct (Lifecycle.get_object st user sf j) as [m |] eqn:Hget; [| done].
    simpl. destruct (decide (j = i)) as [-> | Hne].
    - rewrite lookup_insert_eq. unfold Lifecycle.get_object in Hget.
      destruct (profiles st !! user); simpl in Hget; [| done].
      destruct (matches st !! i) as [m0 |]; simpl in Hget; [| done].
      case_match; [| done]. by injection Hget as ->.
    - by rewrite lookup_insert_ne. }
  destruct r as [d | user mid j | user sf j | user sf j]; simpl.
  - unfold Ledger.create, Ledger.perform_create.
    destruct (Ledger.is_valid st d) as [err | v]; [done |].
    repeat (case_match; try done).
  - unfold Ledger.undo.
    destruct (Ledger.get_object st user mid j) as [e |]; [| done].
    by destruct (corrected_event e).
  - apply Hset.
  - apply Hset.
Qed.

(** C9 (as amended): the score the snapshot serves is read from the
    counts stored on the match row (goals, one-point and two-point
    scores), and no request to record or undo an event or to start or
    complete a match changes what it serves; it is not recomputed from
    the ledger. *)
Theorem snapshot_serves_stored_counts :
  (∀ (st : Store) (i : pk) (m : Match),
     matches st !! i = Some m →
     ∃ s, Channels.get_match_state st i = Some s ∧
          Channels.club_goals_ (Channels.state_score s) = club_goals m ∧
          Channels.club_point_1 (Channels.state_score s) = club_1point m ∧
          Channels.club_point_2 (Channels.state_score s) = club_2point m) ∧
  (∀ (st : Store) (rs : list Api.Request) (i : pk),
     Channels.state_score <$> Channels.get_match_state (Api.handle_all st rs) i
     = Channels.state_score <$> Channels.get_match_state st i).
Proof.
  split.
  - intros st i m Hm. unfold Channels.get_match_state. rewrite Hm; simpl.
    eexists. split_and!; reflexivity.
  - intros st rs i. rewrite !get_match_state_score.
    unfold Api.handle_all. revert st.
    induction rs as [|r rs IH]; intros st; simpl; [done |].
    by rewrite IH, handle_stored_score.
Qed.

(** On the sample database: the snapshot of match 1000. *)
Lemma snapshot_serves_stored_counts_witness :
  ∃ s, Channels.get_match_state Sample.st0 1000 = Some s ∧
       Channels.club_goals_ (Channels.state_score s) = 0%nat.
Proof.
  destruct snapshot_serves_stored_counts as [Hread _].
  destruct (Hread Sample.st0 1000 (Sample.fresh_match 1 in_progress live))
    as (s & Hs & Hg & _); [vm_compute; reflexivity |].
  exists s. split; [done |]. by rewrite Hg.
Defined.

(** C9 (as stated) fails: after a goal is recorded on the fresh match
    1000 the snapshot still serves 0 goals and total 0, while the match
    summary recomputes 1 goal and total 3 from the ledger. *)
Lemma snapshot_score_stale :
  let st :=
    fst (Ledger.create Sample.st0
           (Sample.event_data 1000 (Some 100) score_goal 10)) in
  ∃ s ms,
    Channels.get_match_state st 1000 = Some s ∧
    Stats.match_summary st 10 (Some 1000) = inr ms ∧
    Channels.club_goals_ (Channels.state_score s) = 0%nat ∧
    Stats.ms_goals ms = 1%nat ∧
    Channels.club_goals_ (Channels.state_score s) ≠ Stats.ms_goals ms ∧
    Channels.club_total (Channels.state_score s) ≠ Stats.ms_total ms.
Proof.
  intros st. do 2 eexists.
  split_and!; [vm_compute; reflexivity .. | |]; simpl; discriminate.
Qed.

(** * Further properties of the reports *)

Import Counting.

Lemma bump_in_bump (t : EventType) (c : Report.Counters) :
  MatchExcel.bump_in t c = Report.bump t c.
Proof. by destruct t. Qed.

Lemma count_type_cons (t : EventType) (e : MatchEvent) (l : list MatchEvent) :
  count_type t (e :: l)
  = ((if decide (event_type e = t) then 1 else 0) + count_type t l)%nat.
Proof. unfold count_type. rewrite filter_cons. by case_decide. Qed.

Lemma count_type_Permutation (t : EventType) (l1 l2 : list MatchEvent) :
  l1 ≡ₚ l2 → count_type t l1 = count_type t l2.
Proof. intros Hp. unfold count_type. by rewrite Hp. Qed.

Lemma counts_of_Permutation (l1 l2 : list MatchEvent) :
  l1 ≡ₚ l2 → counts_of l1 = counts_of l2.
Proof.
  intros Hp. unfold counts_of.
  by rewrite !(count_type_Permutation _ l1 l2) by done.
Qed.

Lemma plus_zero (c : Report.Counters) : plus Report.zero c = c.
Proof. by destruct c. Qed.

Lemma fold_bump_counts (l : list MatchEvent) (c0 : Report.Counters) :
  fold_left (λ c e, Report.bump (event_type e) c) l c0 = plus c0 (counts_of l).
Proof.
  revert c0. induction l as [|e l IH]; intros c0; simpl.
  - destruct c0. unfold plus, counts_of, count_type; simpl. f_equal; lia.
  - rewrite IH. unfold plus, counts_of. rewrite !count_type_cons.
    destruct (event_type e), c0; simpl; f_equal; lia.
Qed.

Lemma fold_bump_zero (l : list MatchEvent) :
  fold_left (λ c e, Report.bump (event_type e) c) l Report.zero = counts_of l.
Proof. by rewrite fold_bump_counts, plus_zero. Qed.

(** The loop of the PDF report does both jobs at once; its two
    components are the team loop and the player loop. *)
Lemma fold_step_split (l : list MatchEvent) (team : Report.Counters)
    (ps : gmap pk Report.Counters) :
  fold_left Report.step l (team, ps)
  = (fold_left (λ c e, Report.bump (event_type e) c) l team,
     fold_left
       (λ player_stats event,
          match event_player event with
          | Some p =>
              <[p := Report.bump (event_type event)
                       (default Report.zero (player_stats !! p))]>
                player_stats
          | None => player_stats
          end) l ps).
Proof.
  revert team ps. induction l as [|e l IH]; intros team ps; simpl; [done |].
  by rewrite IH.
Qed.

Lemma player_fold_lookup (l : list MatchEvent) (ps : gmap pk Report.Counters)
    (p : pk) :
  fold_left
    (λ player_stats event,
       match event_player event with
       | Some q =>
           <[q := Report.bump (event_type event)
                    (default Report.zero (player_stats !! q))]>
             player_stats
       | None => player_stats
       end) l ps !! p
  = match filter (λ e, event_player e = Some p) l with
    | [] => ps !! p
    | l' => Some (plus (default Report.zero (ps !! p)) (counts_of l'))
    end.
Proof.
  revert ps. induction l as [|e l IH]; intros ps; simpl; [done |].
  rewrite IH, filter_cons.
  destruct (event_player e) as [q |] eqn:Hq.
  - destruct (decide (q = p)) as [-> | Hne].
    + rewrite decide_True by done. rewrite lookup_insert_eq; simpl.
      destruct (filter _ l) as [|x l'] eqn:Hf.
      * f_equal. rewrite <- fold_bump_counts. done.
      * f_equal. rewrite <- !fold_bump_counts. done.
    + rewrite decide_False by congruence. by rewrite lookup_insert_ne.
  - by rewrite decide_False.
Qed.

Lemma player_entry_Permutation (l1 l2 : list MatchEvent) (p : pk) :
  l1 ≡ₚ l2 → player_entry l1 p = player_entry l2 p.
Proof.
  intros Hp. unfold player_entry.
  assert (Hf : filter (λ e, event_player e = Some p) l1
               ≡ₚ filter (λ e, event_player e = Some p) l2) by (by rewrite Hp).
  destruct (filter _ l1) as [|x l1'] eqn:H1, (filter _ l2) as [|y l2'] eqn:H2;
    try done.
  - by apply Permutation_nil_cons in Hf.
  - symmetry in Hf. by apply Permutation_nil_cons in Hf.
  - f_equal. by apply counts_of_Permutation.
Qed.

Lemma match_events_Permutation (st : Store) (i : pk) :
  Report.match_events st i ≡ₚ of_match st i.
Proof. apply merge_sort_Permutation. Qed.

Lemma generate_match_report_eq (st : Store) (i : pk) :
  Report.generate_match_report st i
  = (counts_of (Report.match_events st i),
     fold_left
       (λ player_stats event,
          match event_player event with
          | Some p =>
              <[p := Report.bump (event_type event)
                       (default Report.zero (player_stats !! p))]>
                player_stats
          | None => player_stats
          end) (Report.match_events st i) ∅,
     Report.total_score (counts_of (Report.match_events st i))).
Proof.
  unfold Report.generate_match_report, Report.fold_events.
  by rewrite fold_step_split, fold_bump_zero.
Qed.

Lemma report_player_lookup (st : Store) (i p : pk) :
  (Report.generate_match_report st i).1.2 !! p = player_entry (of_match st i) p.
Proof.
  rewrite generate_match_report_eq; simpl.
  rewrite player_fold_lookup, lookup_empty; simpl.
  rewrite <- (player_entry_Permutation _ _ p (match_events_Permutation st i)).
  unfold player_entry.
  destruct (filter _ (Report.match_events st i)); [done |].
  by rewrite plus_zero.
Qed.

Lemma player_events_of_match (st : Store) (i p : pk) :
  Stats.player_events st p (Some i)
  = filter (λ e, event_player e = Some p) (of_match st i).
Proof.
  unfold Stats.player_events, of_match.
  rewrite !list_filter_filter. apply list_filter_iff. intros e. tauto.
Qed.

(** X1: whatever the order in which the minutes were entered, every team
    figure of the match report is a count over the events of the
    match: goals, one-point and two-point scores and tackles won are
    the numbers of events of that kind, shots taken is the number of
    shots on target, wide and saved together, and shots on target never
    exceed shots taken. *)
Theorem report_team_figures_are_counts (st : Store) (i : pk) :
  let team := (Report.generate_match_report st i).1.1 in
  team = counts_of (of_match st i) ∧
  (Report.shots_on_target team ≤ Report.shots_taken team)%nat ∧
  (Report.generate_match_report st i).2
  = (count_type score_goal (of_match st i) * 3
     + count_type score_1point (of_match st i)
     + count_type score_2point (of_match st i))%nat.
Proof.
  rewrite generate_match_report_eq; simpl.
  rewrite (counts_of_Permutation _ _ (match_events_Permutation st i)).
  split_and!; [done | simpl; lia | done].
Qed.

(** X2: the row of a player in the match report agrees with the player
    summary endpoint for that match: a player has a row exactly when
    the match has an event of theirs, and then goals, one-point and
    two-point scores, shots taken, shots on target and tackles won are
    the figures [player_summary] computes. *)
Theorem report_player_row_agrees_with_player_summary (st : Store) (i p : pk) :
  ((Report.generate_match_report st i).1.2 !! p = None
   ↔ Stats.player_events st p (Some i) = []) ∧
  ∀ c, (Report.generate_match_report st i).1.2 !! p = Some c →
       let s := Stats.summarise_player (Stats.player_events st p (Some i)) in
       Report.goals c = Stats.ps_goals s ∧
       Report.point_1 c = Stats.ps_point_1 s ∧
       Report.point_2 c = Stats.ps_point_2 s ∧
       Report.shots_taken c = Stats.ps_total_shots s ∧
       Report.shots_on_target c = Stats.ps_shots_on_target s ∧
       Report.tackles_won c = Stats.ps_tackles_won s.
Proof.
  rewrite report_player_lookup, player_events_of_match. unfold player_entry.
  destruct (filter _ (of_match st i)) as [|x l] eqn:Hf.
  - split; [done |]. by intros c.
  - split; [split; discriminate |]. by intros c [= <-].
Qed.

(** X3: the Excel report of a match, which counts with a different
    chain of tests in two separate loops, gives the same team figures,
    player rows and total as the PDF report, and the dashboard's match
    detail page shows the same player rows; the page is not found for
    a match of another club. *)
Theorem match_figures_agree_across_surfaces (st : Store) (i : pk) :
  MatchExcel.generate_match_report_excel st i
  = Report.generate_match_report st i ∧
  ∀ club m, matches st !! i = Some m →
    Dashboard.match_detail st club i
    = if decide (match_club m = club)
      then Some (Report.generate_match_report st i).1.2
      else None.
Proof.
  split.
  - rewrite generate_match_report_eq.
    unfold MatchExcel.generate_match_report_excel,
      MatchExcel.team_loop, MatchExcel.player_loop.
    assert (Ht : ∀ l c0,
      fold_left (λ c e, MatchExcel.bump_in (event_type e) c) l c0
      = fold_left (λ c e, Report.bump (event_type e) c) l c0).
    { induction l as [|e l IH]; intros c0; simpl; [done |].
      by rewrite IH, bump_in_bump. }
    assert (Hp : ∀ l (ps : gmap pk Report.Counters),
      fold_left
        (λ player_stats event,
           match event_player event with
           | Some p =>
               <[p := MatchExcel.bump_in (event_type event)
                        (default Report.zero (player_stats !! p))]>
                 player_stats
           | None => player_stats
           end) l ps
      = fold_left
          (λ player_stats event,
             match event_player event with
             | Some p =>
                 <[p := Report.bump (event_type event)
                          (default Report.zero (player_stats !! p))]>
                   player_stats
             | None => player_stats
             end) l ps).
    { induction l as [|e l IH]; intros ps; simpl; [done |].
      rewrite IH. by destruct (event_player e); rewrite ?bump_in_bump. }
    by rewrite Ht, Hp, fold_bump_zero.
  - intros club m Hm. unfold Dashboard.match_detail. rewrite Hm; simpl.
    case_decide; [| done]. by rewrite generate_match_report_eq.
Qed.

(** On the sample database after three scores: the row of player 100. *)
Lemma report_player_row_agrees_with_player_summary_witness :
  Stats.ps_goals
    (Stats.summarise_player (Stats.player_events Examples.scored 100 (Some 1000)))
  = 1%nat.
Proof.
  destruct (report_player_row_agrees_with_player_summary Examples.scored 1000 100)
    as [_ Hrow].
  assert (Hc : (Report.generate_match_report Examples.scored 1000).1.2 !! 100
               = Some Examples.one_of_each) by (vm_compute; reflexivity).
  pose proof (Hrow Examples.one_of_each Hc) as Hr. cbv zeta in Hr.
  destruct Hr as (Hg & _). symmetry. exact Hg.
Defined.

(** On the sample database after three scores: the page of club 1. *)
Lemma match_figures_agree_across_surfaces_witness :
  Dashboard.match_detail Examples.scored 1 1000
  = Some (Report.generate_match_report Examples.scored 1000).1.2.
Proof.
  destruct (match_figures_agree_across_surfaces Examples.scored 1000) as [_ Hd].
  rewrite (Hd 1 (Sample.fresh_match 1 in_progress live));
    [| vm_compute; reflexivity].
  reflexivity.
Defined.

Lemma counted_kinds_le_length (l : list MatchEvent) :
  (count_type score_goal l + count_type score_1point l
   + count_type score_2point l + count_type shot_on_target l
   + count_type shot_wide l + count_type shot_saved l
   + count_type tackle_won l ≤ length l)%nat.
Proof.
  induction l as [|e l IH]; [done |].
  rewrite !count_type_cons. destruct (event_type e); simpl; lia.
Qed.

(** X4: the PDF report of a player looks at the 50 events with the
    latest timestamps only, so its figures never add up to more than
    50; as long as the player has at most 50 events it shows the same
    figures as the Excel report of the player, which are then the
    counts over all events of the player. *)
Theorem player_report_pdf_reads_latest_50 (st : Store) (p : pk) :
  let c := (PlayerReport.generate_player_report_pdf st p).1 in
  (Report.goals c + Report.point_1 c + Report.point_2 c
   + Report.shots_taken c + Report.tackles_won c ≤ 50)%nat ∧
  ((length (Stats.player_events st p None) ≤ 50)%nat →
   PlayerReport.generate_player_report_pdf st p
   = PlayerReport.generate_player_report_excel st p ∧
   c = counts_of (Stats.player_events st p None)).
Proof.
  unfold PlayerReport.generate_player_report_pdf,
    PlayerReport.generate_player_report_excel; simpl.
  rewrite fold_bump_zero. split.
  - pose proof (counted_kinds_le_length (PlayerReport.pdf_events st p)) as Hle.
    assert (Hlen : (length (PlayerReport.pdf_events st p) ≤ 50)%nat).
    { unfold PlayerReport.pdf_events. rewrite length_take. lia. }
    unfold counts_of; simpl. lia.
  - intros Hfew. unfold Stats.player_events in Hfew.
    assert (Hpdf : PlayerReport.pdf_events st p
                   ≡ₚ filter (λ e, event_player e = Some p) (events st)).
    { unfold PlayerReport.pdf_events. rewrite take_ge.
      - apply merge_sort_Permutation.
      - by rewrite merge_sort_Permutation. }
    assert (Hxl : PlayerReport.excel_events st p
                  ≡ₚ filter (λ e, event_player e = Some p) (events st))
      by apply merge_sort_Permutation.
    assert (Ht : ∀ l c0,
      fold_left (λ c e, MatchExcel.bump_in (event_type e) c) l c0
      = fold_left (λ c e, Report.bump (event_type e) c) l c0).
    { induction l as [|e l IH]; intros c0; simpl; [done |].
      by rewrite IH, bump_in_bump. }
    rewrite Ht, fold_bump_zero.
    rewrite (counts_of_Permutation _ _ Hpdf), (counts_of_Permutation _ _ Hxl).
    done.
Qed.

(** On the sample database after three scores: player 100 has three
    events. *)
Lemma player_report_pdf_reads_latest_50_witness :
  PlayerReport.generate_player_report_pdf Examples.scored 100
  = PlayerReport.generate_player_report_excel Examples.scored 100.
Proof.
  destruct (player_report_pdf_reads_latest_50 Examples.scored 100) as [_ Hfew].
  apply Hfew. vm_compute. lia.
Defined.

Lemma count_type_filter_le (t : EventType) (P : MatchEvent → Prop)
    `{!∀ e, Decision (P e)} (l : list MatchEvent) :
  (count_type t (filter P l) ≤ count_type t l)%nat.
Proof.
  induction l as [|e l IH]; [done |].
  rewrite filter_cons. case_decide; rewrite !count_type_cons; lia.
Qed.

Lemma filter_all {A : Type} (P : A → Prop) `{!∀ x, Decision (P x)} (l : list A) :
  (∀ x, x ∈ l → P x) → filter P l = l.
Proof.
  induction l as [|a l IH]; intros Hall; [done |].
  rewrite filter_cons, decide_True by (apply Hall; by left).
  rewrite IH; [done |]. intros x Hx. apply Hall. by right.
Qed.

(** X5: the match summary counts only events whose player belongs to
    the match's club, the match report counts every event of the
    match; so each score count of the summary is at most the report's,
    and when every event of the match has a player of the club the
    counts coincide and the summary's total exceeds the report's total
    by the number of two-point scores. *)
Theorem match_summary_against_report (st : Store) (user i : pk)
    (s : Stats.MatchSummary) :
  Stats.match_summary st user (Some i) = inr s →
  let team := (Report.generate_match_report st i).1.1 in
  (Stats.ms_goals s ≤ Report.goals team)%nat ∧
  (Stats.ms_point_1 s ≤ Report.point_1 team)%nat ∧
  (Stats.ms_point_2 s ≤ Report.point_2 team)%nat ∧
  ((∀ e m, e ∈ of_match st i → matches st !! i = Some m →
           event_player_club st e = Some (match_club m)) →
   Stats.ms_goals s = Report.goals team ∧
   Stats.ms_point_1 s = Report.point_1 team ∧
   Stats.ms_point_2 s = Report.point_2 team ∧
   Stats.ms_total s
   = ((Report.generate_match_report st i).2 + Report.point_2 team)%nat).
Proof.
  intros Hs. pose proof (report_team_figures_are_counts st i) as (Hteam & _ & Htot).
  simpl in Hteam. simpl. rewrite Htot, Hteam. clear Hteam Htot.
  unfold Stats.match_summary in Hs.
  destruct (profiles st !! user) as [profile |]; [| done].
  destruct (matches st !! i) as [m |] eqn:Hm; [| done].
  case_decide; [| done]. injection Hs as <-. simpl.
  unfold Stats.home_events. fold (of_match st i).
  split_and!; try apply count_type_filter_le.
  intros Hall. rewrite filter_all by (intros e He; by apply Hall).
  split_and!; try done. lia.
Qed.

(** On the sample database after three scores, all by player 100 of
    club 1. *)
Lemma match_summary_against_report_witness :
  ∃ s, Stats.match_summary Examples.scored 10 (Some 1000) = inr s ∧
       Stats.ms_total s
       = S (Report.generate_match_report Examples.scored 1000).2.
Proof.
  destruct (Stats.match_summary Examples.scored 10 (Some 1000))
    as [err | s] eqn:Hs; [exfalso; vm_compute in Hs; discriminate |].
  exists s. split; [done |].
  destruct (match_summary_against_report Examples.scored 10 1000 s Hs)
    as (_ & _ & _ & Heq).
  destruct Heq as (_ & _ & _ & ->).
  - intros e m He [= <-].
    assert (Hl : of_match Examples.scored 1000 = events Examples.scored)
      by (vm_compute; reflexivity).
    rewrite Hl in He. vm_compute in He.
    repeat (apply elem_of_cons in He as [-> | He]; [vm_compute; reflexivity |]).
    by apply elem_of_nil in He.
  - assert (Hp2 : Report.point_2
                    (Report.generate_match_report Examples.scored 1000).1.1
                  = 1%nat) by (vm_compute; reflexivity).
    rewrite Hp2. lia.
Defined.

(** * Further properties of the ledger *)

Import Facts.

(** X6: the event listing is scoped to the caller's club: it is empty
    for a user without a profile, it contains every event of the
    club's matches (of the requested match, when one is given) exactly
    as often as the ledger does, and the listings of two users of
    different clubs have no event in common. *)
Theorem event_listing_is_club_scoped (st : Store) :
  (∀ user match_id, profiles st !! user = None →
     Ledger.get_queryset st user match_id = []) ∧
  (∀ user profile,
     profiles st !! user = Some profile →
     Ledger.get_queryset st user None
     ≡ₚ filter (λ e, event_club st e = Some (profile_club profile)) (events st)) ∧
  (∀ user1 user2 profile1 profile2 m1 m2 e,
     profiles st !! user1 = Some profile1 →
     profiles st !! user2 = Some profile2 →
     profile_club profile1 ≠ profile_club profile2 →
     e ∈ Ledger.get_queryset st user1 m1 →
     e ∉ Ledger.get_queryset st user2 m2).
Proof.
  split_and!.
  - intros user match_id Hp. unfold Ledger.get_queryset. by rewrite Hp.
  - intros user profile Hp. unfold Ledger.get_queryset. rewrite Hp.
    apply merge_sort_Permutation.
  - intros user1 user2 profile1 profile2 m1 m2 e Hp1 Hp2 Hne Hin1 Hin2.
    apply get_queryset_elem_of in Hin1 as (_ & p1 & Hq1 & Hc1 & _).
    apply get_queryset_elem_of in Hin2 as (_ & p2 & Hq2 & Hc2 & _).
    congruence.
Qed.

(** On the sample database with one tackle: user 10 of club 1 sees it,
    user 20 of club 2 does not. *)
Lemma event_listing_is_club_scoped_witness :
  let st := fst (Ledger.create Sample.st0 Sample.tackle) in
  let e := {| event_id := 1; event_match := 1000; event_player := Some 100;
              timestamp := Some 0; minute := 5; event_type := tackle_won;
              data := "{}"%string; corrected_event := None |} in
  e ∈ Ledger.get_queryset st 10 None ∧ e ∉ Ledger.get_queryset st 20 None.
Proof.
  intros st e.
  assert (Hin : e ∈ Ledger.get_queryset st 10 None)
    by (vm_compute; repeat constructor).
  split; [done |].
  destruct (event_listing_is_club_scoped st) as (_ & _ & Hdisj).
  apply (Hdisj 10 20 {| profile_club := 1 |} {| profile_club := 2 |} None None e);
    [vm_compute; reflexivity | vm_compute; reflexivity | simpl; lia | done].
Defined.

(** X7: [undo] is scoped to the caller's club: for an event of a match
    that does not belong to the caller's club (or a caller without a
    profile) it answers not found and changes nothing, whether or not
    the event carries a correction link. *)
Theorem undo_is_club_scoped (st : Store) (user : pk) (match_id : option pk)
    (e : MatchEvent) (club : pk) :
  wf_store st → e ∈ events st → event_club st e = Some club →
  outsider st user club →
  Ledger.undo st user match_id (event_id e) = (st, inl Http404).
Proof.
  intros Hwf He Hclub Hout. unfold Ledger.undo.
  destruct (Ledger.get_object st user match_id (event_id e)) as [x |] eqn:Hget;
    [| done].
  exfalso.
  pose proof (get_object_elem_of _ _ _ _ _ Hget) as Hx.
  apply get_object_Some in Hget as [Hq Hid].
  assert (x = e) as -> by (by eapply wf_store_unique).
  apply get_queryset_elem_of in Hq as (_ & profile & Hp & Hc & _).
  apply (Hout profile Hp). congruence.
Qed.

(** On the sample database: user 20 of club 2 tries to undo the tackle
    recorded for club 1. *)
Lemma undo_is_club_scoped_witness :
  let st := fst (Ledger.create Sample.st0 Sample.tackle) in
  Ledger.undo st 20 None 1 = (st, inl Http404).
Proof.
  intros st.
  assert (Hwf : wf_store st)
    by (apply wf_store_create_event; split; constructor).
  apply (undo_is_club_scoped st 20 None
           {| event_id := 1; event_match := 1000; event_player := Some 100;
              timestamp := Some 0; minute := 5; event_type := tackle_won;
              data := "{}"%string; corrected_event := None |} 1 Hwf).
  - vm_compute. repeat constructor.
  - vm_compute; reflexivity.
  - intros profile Hp. vm_compute in Hp. injection Hp as <-. simpl. lia.
Defined.

Lemma same_but_link_refl (e : MatchEvent) : same_but_link e e.
Proof. by repeat split. Qed.

Lemma same_but_link_trans (e1 e2 e3 : MatchEvent) :
  same_but_link e1 e2 → same_but_link e2 e3 → same_but_link e1 e3.
Proof.
  intros (? & ? & ? & ? & ? & ? & ? & Hl1) (? & ? & ? & ? & ? & ? & ? & Hl2).
  repeat split; try congruence.
  intros Hne. rewrite Hl2; [by apply Hl1 |]. rewrite Hl1; done.
Qed.

Lemma handle_keeps_events (st : Store) (r : Api.Request) (e : MatchEvent) :
  e ∈ events st →
  ∃ e', e' ∈ events (Api.handle st r) ∧ same_but_link e e'.
Proof.
  intros He. exists e. split; [| apply same_but_link_refl].
  destruct (handle_events st r) as [-> | (x & -> & _)]; [done |].
  apply elem_of_app; by left.
Qed.

Lemma handle_length (st : Store) (r : Api.Request) :
  (length (events st) ≤ length (events (Api.handle st r)))%nat.
Proof.
  destruct (handle_events st r) as [-> | (x & -> & _)];
    rewrite ?length_app; simpl; lia.
Qed.

(** X8: the ledger is append-only.  Over any sequence of requests to
    record and undo events and to start and complete matches, no event
    disappears and the ledger never shrinks; an event keeps its
    primary key, match, player, timestamp, minute, kind and payload,
    and a correction link, once set, is never changed. *)
Theorem ledger_is_append_only (st : Store) (rs : list Api.Request) :
  wf_store st →
  (length (events st) ≤ length (events (Api.handle_all st rs)))%nat ∧
  ∀ e, e ∈ events st →
       ∃ e', e' ∈ events (Api.handle_all st rs) ∧ same_but_link e e'.
Proof.
  unfold Api.handle_all. revert st.
  induction rs as [|r rs IH]; intros st Hwf; simpl.
  - split; [done |]. intros e He. exists e. split; [done |].
    apply same_but_link_refl.
  - destruct (IH (Api.handle st r) (wf_store_handle st r Hwf)) as [Hlen Hkeep].
    split.
    + pose proof (handle_length st r). lia.
    + intros e He.
      destruct (handle_keeps_events st r e He) as (e1 & He1 & Hs1).
      destruct (Hkeep e1 He1) as (e2 & He2 & Hs2).
      exists e2. split; [done |]. by eapply same_but_link_trans.
Qed.

(** On the sample database: the tackle survives a request to undo it
    and two further requests. *)
Lemma ledger_is_append_only_witness :
  let st := fst (Ledger.create Sample.st0 Sample.tackle) in
  ∃ e', e' ∈ events (Api.handle_all st
                       [Api.Undo 10 None 1; Api.Create Sample.tackle;
                        Api.CompleteMatch 10 None 1000]) ∧
        event_id e' = 1 ∧ event_type e' = tackle_won.
Proof.
  intros st.
  assert (Hwf : wf_store st)
    by (apply wf_store_create_event; split; constructor).
  destruct (ledger_is_append_only st
              [Api.Undo 10 None 1; Api.Create Sample.tackle;
               Api.CompleteMatch 10 None 1000] Hwf) as [_ Hkeep].
  destruct (Hkeep {| event_id := 1; event_match := 1000;
                     event_player := Some 100; timestamp := Some 0;
                     minute := 5; event_type := tackle_won;
                     data := "{}"%string; corrected_event := None |})
    as (e' & He' & Hid & _ & _ & _ & _ & Hty & _).
  - vm_compute. repeat constructor.
  - exists e'. split_and!; done.
Defined.

(** X9: an event that was recorded can be fetched: after a successful
    [create] the lookup by the new primary key, by any user of the
    club owning the match, with or without the match filter, returns
    the created event, and the event carries the match, player,
    timestamp, minute, kind, payload and correction link of the
    request. *)
Theorem create_then_get_object (st st' : Store) (d : Ledger.EventData)
    (e : MatchEvent) (user : pk) (profile : UserProfile) (m : Match) :
  wf_store st → Ledger.create st d = (st', inr e) →
  profiles st !! user = Some profile →
  matches st !! Ledger.d_match d = Some m →
  match_club m = profile_club profile →
  Ledger.get_object st' user None (event_id e) = Some e ∧
  Ledger.get_object st' user (Some (Ledger.d_match d)) (event_id e) = Some e ∧
  event_match e = Ledger.d_match d ∧ event_player e = Ledger.d_player d ∧
  timestamp e = Some (Ledger.d_timestamp d) ∧ minute e = Ledger.d_minute d ∧
  event_type e = Ledger.d_event_type d ∧ data e = Ledger.d_data d ∧
  corrected_event e = Ledger.d_corrected_event d.
Proof.
  intros Hwf Hc Hp Hm Hclub.
  pose proof (wf_store_create_event st d Hwf) as Hwf'.
  rewrite Hc in Hwf'; simpl in Hwf'.
  apply create_inv in Hc as (v & Hv & _ & _ & He & ->).
  apply is_valid_inv in Hv
    as (m' & Hm' & Hvm & Hvp & Hpl & Hts & Hmin & Hty & Hdata & Hlink).
  assert (Hfields : event_match e = Ledger.d_match d ∧
                    event_player e = Ledger.d_player d).
  { subst e; simpl. rewrite Hvm, Hvp. split; [done |].
    destruct (Ledger.d_player d) as [p |]; simpl; [| done].
    destruct (Hpl p eq_refl) as [pl Hq]. by rewrite Hq. }
  destruct Hfields as [Hfm Hfp].
  assert (Hq : ∀ mid, from_option (λ x, event_match e = x) True mid →
                 e ∈ Ledger.get_queryset
                       (set_events st (events st ++ [e]) (next_event_id st + 1))
                       user mid).
  { intros mid Hmid. apply get_queryset_elem_of. split.
    - simpl. apply elem_of_app. right. by apply list_elem_of_singleton.
    - exists profile. split_and!; [done | | done].
      unfold event_club; simpl. rewrite Hfm, Hm; simpl. by rewrite Hclub. }
  split_and!; try done.
  - apply (get_object_complete _ _ _ _ Hwf'). by apply Hq.
  - apply (get_object_complete _ _ _ _ Hwf'). by apply Hq.
  - subst e; simpl. by rewrite Hts.
  - subst e; simpl. done.
  - subst e; simpl. done.
  - subst e; simpl. done.
  - subst e; simpl. done.
Qed.

(** On the sample database: the tackle, fetched by user 10. *)
Lemma create_then_get_object_witness :
  ∃ st' e, Ledger.create Sample.st0 Sample.tackle = (st', inr e) ∧
           Ledger.get_object st' 10 None (event_id e) = Some e.
Proof.
  destruct (Ledger.create Sample.st0 Sample.tackle) as [st' [err | e]] eqn:Hc;
    [exfalso; vm_compute in Hc; discriminate |].
  exists st', e. split; [done |].
  assert (Hwf0 : wf_store Sample.st0) by (split; constructor).
  destruct (create_then_get_object Sample.st0 st' Sample.tackle e 10
              {| profile_club := 1 |} (Sample.fresh_match 1 in_progress live)
              Hwf0 Hc) as (Hget & _); try (vm_compute; reflexivity).
  exact Hget.
Defined.

Lemma has_required_player_handle (st : Store) (r : Api.Request) :
  wf_store st → has_required_player st → has_required_player (Api.handle st r).
Proof.
  intros Hwf Hreq.
  destruct r as [d | user mid i | user sf i | user sf i]; simpl.
  - destruct (Ledger.create st d) as [st' [err | e]] eqn:Hc;
      apply create_inv in Hc; simpl; [by subst |].
    destruct Hc as (v & Hv & _ & _ & -> & ->).
    intros x; simpl.
    intros [Hx | ->%list_elem_of_singleton]%elem_of_app Hty; [by apply Hreq |].
    simpl in *. unfold Ledger.is_valid in Hv.
    destruct (Ledger.field_errors st d); [| done].
    destruct (matches st !! Ledger.d_match d); [| done].
    unfold Ledger.validate in Hv. case_decide as Hdec; [done |].
    injection Hv as <-. simpl in *.
    intros Hnone. apply Hdec. split; [done |].
    by destruct (Ledger.d_player d ≫= _).
  - by rewrite undo_store.
  - destruct (set_match_status_store in_progress st user sf i) as (He & _).
    intros x. unfold Lifecycle.start_match. rewrite He. apply Hreq.
  - destruct (set_match_status_store completed st user sf i) as (He & _).
    intros x. unfold Lifecycle.complete_match. rewrite He. apply Hreq.
Qed.

Lemma has_required_player_handle_all (st : Store) (rs : list Api.Request) :
  wf_store st → has_required_player st →
  has_required_player (Api.handle_all st rs).
Proof.
  unfold Api.handle_all. revert st.
  induction rs as [|r rs IH]; intros st Hwf Hreq; simpl; [done |].
  apply IH; [by apply wf_store_handle | by apply has_required_player_handle].
Qed.

(** X10: the serializer's player rule holds of every recorded ledger:
    over any sequence of requests, every event whose kind is not a
    kick-out or a substitution has a player; only kick-outs won and
    lost and substitutions can be recorded without one. *)
Theorem recorded_events_have_required_player :
  (∀ t, t ∉ Ledger.player_required_events
        ↔ t ∈ [kickout_won; kickout_lost; substitution]) ∧
  (∀ (st : Store) (rs : list Api.Request),
     wf_store st → has_required_player st →
     ∀ e, e ∈ events (Api.handle_all st rs) →
          event_type e ∉ [kickout_won; kickout_lost; substitution] →
          event_player e ≠ None) ∧
  (∀ (st : Store) (d : Ledger.EventData),
     Ledger.field_errors st d = [] →
     Ledger.d_event_type d ∈ Ledger.player_required_events →
     Ledger.d_player d = None →
     Ledger.create st d
     = (st, inl (PlayerRequired (Ledger.d_event_type d)))).
Proof.
  assert (Hkinds : ∀ t, t ∉ Ledger.player_required_events
                        ↔ t ∈ [kickout_won; kickout_lost; substitution]).
  { intros t. split; intros H; apply (bool_decide_unpack _);
      apply (bool_decide_pack _) in H; destruct t; vm_compute in H |- *; done. }
  split_and!; [done | |].
  - intros st rs Hwf Hreq e He Hty.
    apply (has_required_player_handle_all st rs Hwf Hreq e He).
    destruct (decide (event_type e ∈ Ledger.player_required_events)) as [|Hn];
      [done |]. by apply Hkinds in Hn.
  - intros st d Hfield Hty Hp. unfold Ledger.create, Ledger.is_valid.
    rewrite Hfield.
    destruct (matches st !! Ledger.d_match d) as [m |] eqn:Hm.
    + unfold Ledger.validate; simpl. rewrite Hp; simpl.
      by rewrite decide_True.
    + unfold Ledger.field_errors in Hfield. by rewrite Hm in Hfield.
Qed.

(** On the sample database: a goal without a player is refused, and
    after the three scores every score has its player. *)
Lemma recorded_events_have_required_player_witness :
  Ledger.create Sample.st0 (Sample.event_data 1000 None score_goal 10)
  = (Sample.st0, inl (PlayerRequired score_goal)) ∧
  ∀ e, e ∈ events Examples.scored → event_type e = score_goal →
       event_player e ≠ None.
Proof.
  destruct recorded_events_have_required_player as (_ & Hinv & Hrefuse).
  split.
  - apply Hrefuse; [vm_compute; reflexivity | | reflexivity].
    simpl. unfold Ledger.player_required_events. by left.
  - intros e He Hty.
    apply (Hinv Sample.st0 Sample.three_scores); try done.
    + split; constructor.
    + intros x Hx. by apply elem_of_nil in Hx.
    + rewrite Hty. intros H.
      repeat (apply elem_of_cons in H as [H | H]; [discriminate |]).
      by apply elem_of_nil in H.
Defined.

Lemma count_type_filter_same (t : EventType) (P : MatchEvent → Prop)
    `{!∀ e, Decision (P e)} (l : list MatchEvent) :
  (∀ e, e ∈ l → event_type e = t → P e) →
  count_type t (filter P l) = count_type t l.
Proof.
  induction l as [|e l IH]; intros Hall; [done |].
  rewrite filter_cons. case_decide as HP.
  - rewrite !count_type_cons, IH; [done |].
    intros x Hx. apply Hall. by right.
  - rewrite count_type_cons, IH by (intros x Hx; apply Hall; by right).
    rewrite decide_False; [done |]. intros Ht. apply HP, Hall; [by left | done].
Qed.

(** X11: on a ledger built by requests the match summary and the match
    report agree on the scores.  Every recorded score has a player, and
    that player belongs to the match's club, so the summary's filter on
    the player's club drops no score: goals, one-point and two-point
    counts coincide with the report's, and the summary's total is the
    report's total plus the number of two-point scores. *)
Theorem recorded_scores_coincide (st : Store) (rs : list Api.Request)
    (user i : pk) (s : Stats.MatchSummary) :
  wf_store st → player_owned st → has_required_player st →
  let st' := Api.handle_all st rs in
  Stats.match_summary st' user (Some i) = inr s →
  let team := (Report.generate_match_report st' i).1.1 in
  Stats.ms_goals s = Report.goals team ∧
  Stats.ms_point_1 s = Report.point_1 team ∧
  Stats.ms_point_2 s = Report.point_2 team ∧
  Stats.ms_total s
  = ((Report.generate_match_report st' i).2 + Report.point_2 team)%nat.
Proof.
  intros Hwf Hown Hreq st' Hs.
  pose proof (player_owned_handle_all st rs Hwf Hown) as Hown'.
  pose proof (has_required_player_handle_all st rs Hwf Hreq) as Hreq'.
  fold st' in Hown', Hreq'.
  pose proof (report_team_figures_are_counts st' i) as (Hteam & _ & Htot).
  simpl in Hteam. simpl. rewrite Htot, Hteam. clear Hteam Htot.
  unfold Stats.match_summary in Hs.
  destruct (profiles st' !! user) as [profile |]; [| done].
  destruct (matches st' !! i) as [m |] eqn:Hm; [| done].
  case_decide; [| done]. injection Hs as <-. simpl.
  unfold Stats.home_events. fold (of_match st' i).
  assert (Hscore : ∀ t, t ∈ Ledger.player_required_events →
    count_type t
      (filter (λ e, event_player_club st' e = Some (match_club m))
              (of_match st' i))
    = count_type t (of_match st' i)).
  { intros t Ht. apply count_type_filter_same. intros e He Hty.
    apply list_elem_of_filter in He as [Hmatch He].
    destruct (event_player e) as [p |] eqn:Hp.
    - destruct (Hown' e p He Hp) as (player & m' & Hpl & Hm' & Hclub).
      unfold event_player_club. rewrite Hp; simpl. rewrite Hpl; simpl.
      rewrite Hmatch, Hm in Hm'. injection Hm' as <-. by rewrite Hclub.
    - exfalso. apply (Hreq' e He); [by rewrite Hty | done]. }
  rewrite !Hscore by (unfold Ledger.player_required_events; set_solver).
  split_and!; try done. lia.
Qed.

(** On the sample database, whose ledger is empty, after the three
    scores. *)
Lemma recorded_scores_coincide_witness :
  ∃ s, Stats.match_summary Examples.scored 10 (Some 1000) = inr s ∧
       Stats.ms_goals s
       = Report.goals (Report.generate_match_report Examples.scored 1000).1.1.
Proof.
  destruct (Stats.match_summary Examples.scored 10 (Some 1000))
    as [err | s] eqn:Hs; [exfalso; vm_compute in Hs; discriminate |].
  exists s. split; [done |].
  destruct (recorded_scores_coincide Sample.st0 Sample.three_scores 10 1000 s)
    as (Hg & _); try done.
  - split; constructor.
  - intros e p He. by apply elem_of_nil in He.
  - intros e He. by apply elem_of_nil in He.
Defined.

(** X12: events that do not concern a summary leave it alone.  An event
    recorded without a player (a kick-out, say) changes no match
    summary, not even its kick-out counts; an event recorded for one
    player changes no other player's summary. *)
Theorem unrelated_events_leave_summaries (st st' : Store)
    (d : Ledger.EventData) (e : MatchEvent) :
  Ledger.create st d = (st', inr e) →
  (Ledger.d_player d = None →
   ∀ user match_id,
     Stats.match_summary st' user match_id = Stats.match_summary st user match_id) ∧
  (∀ p, Ledger.d_player d ≠ Some p →
   ∀ user match_id,
     Stats.player_summary st' user (Some p) match_id
     = Stats.player_summary st user (Some p) match_id).
Proof.
  intros Hc. apply create_inv in Hc as (v & Hv & _ & _ & He & ->).
  apply is_valid_inv in Hv as (m' & _ & _ & Hvp & Hpl & _).
  assert (Hep : event_player e = Ledger.d_player d).
  { subst e; simpl. rewrite Hvp.
    destruct (Ledger.d_player d) as [p |]; simpl; [| done].
    destruct (Hpl p eq_refl) as [pl Hq]. by rewrite Hq. }
  split.
  - intros Hnone user match_id. unfold Stats.match_summary; simpl.
    destruct match_id as [mid |]; [| done].
    destruct (profiles st !! user) as [profile |]; [| done].
    destruct (matches st !! mid) as [m |]; [| done].
    case_decide; [| done].
    assert (Hh : Stats.home_events
                   (set_events st (events st ++ [e]) (next_event_id st + 1)) mid m
                 = Stats.home_events st mid m).
    { unfold Stats.home_events; simpl. rewrite !filter_app.
      assert (Hlast : filter (λ x, event_player_club
                         (set_events st (events st ++ [e]) (next_event_id st + 1))
                         x = Some (match_club m))
                        (filter (λ x, event_match x = mid) [e]) = []).
      { rewrite (filter_cons _ e), filter_nil.
        case_decide; [| done]. rewrite filter_cons, filter_nil.
        rewrite decide_False; [done |].
        unfold event_player_club. by rewrite Hep, Hnone. }
      rewrite Hlast, app_nil_r.
      apply list_filter_iff. intros x. by unfold event_player_club. }
    by rewrite Hh.
  - intros p Hne user match_id. unfold Stats.player_summary; simpl.
    destruct (profiles st !! user) as [profile |]; [| done].
    destruct (players st !! p) as [pl |]; [| done].
    case_decide; [| done].
    assert (Hh : Stats.player_events
                   (set_events st (events st ++ [e]) (next_event_id st + 1))
                   p match_id
                 = Stats.player_events st p match_id).
    { unfold Stats.player_events; simpl. rewrite filter_app.
      rewrite (filter_cons _ e), filter_nil.
      rewrite decide_False by (by rewrite Hep). by rewrite app_nil_r. }
    by rewrite Hh.
Qed.

(** On the sample database: a kick-out won without a player. *)
Lemma unrelated_events_leave_summaries_witness :
  ∃ st' e, Ledger.create Sample.st0 Examples.kickout = (st', inr e) ∧
           Stats.match_summary st' 10 (Some 1000)
           = Stats.match_summary Sample.st0 10 (Some 1000) ∧
           Stats.player_summary st' 10 (Some 100) None
           = Stats.player_summary Sample.st0 10 (Some 100) None.
Proof.
  destruct (Ledger.create Sample.st0 Examples.kickout) as [st' [err | e]] eqn:Hc;
    [exfalso; vm_compute in Hc; discriminate |].
  exists st', e. split; [done |].
  destruct (unrelated_events_leave_summaries Sample.st0 st' Examples.kickout e Hc)
    as [Hteam Hplayer].
  split; [by apply Hteam | by apply Hplayer].
Defined.

(** * Further properties of the match channel *)

Import ChannelFacts.

Lemma elem_of_broadcast (layer : gmap string (gset string)) (mid : pk)
    (ty data : string) (ch : string) (msg : Channels.Message) :
  (ch, msg) ∈ Channels.broadcast_to_match layer mid ty data
  ↔ ty ∈ Channels.handlers ∧
    msg = {| Channels.msg_type := ty; Channels.msg_data := data |} ∧
    ch ∈ members layer (Channels.group_of mid).
Proof.
  unfold Channels.broadcast_to_match, members. case_decide as Hty.
  - rewrite list_elem_of_fmap. split.
    + intros (c & [= -> ->] & Hc). by apply elem_of_elements in Hc.
    + intros (_ & -> & Hc). exists ch. split; [done |].
      by apply elem_of_elements.
  - rewrite elem_of_nil. intuition congruence.
Qed.

(** X13: no handshake is accepted.  Whatever the store, the layer and
    the connection, [connect] ends with a close code or with the
    exception, never with [accept]; it leaves every group of the layer
    and the consumer (which gets no group name) as they were.  In
    particular, when the caller's club owns the match, the handshake
    raises [SynchronousOnlyOperation] where the handler means to join
    the group of the match. *)
Theorem handshake_is_never_accepted (st : Store)
    (layer : gmap string (gset string)) (self : Channels.Consumer) :
  (∃ out, Channels.connect st layer self = (layer, self, out) ∧
          out ≠ Channels.Accepted) ∧
  (∀ g, members (Channels.connect st layer self).1.1 g = members layer g) ∧
  (tenants_agree st (Channels.scope self) →
   Channels.connect st layer self
   = (layer, self, Channels.SynchronousOnlyOperation)).
Proof.
  split_and!.
  - rewrite connect_cases. eexists. split; [done |].
    destruct (Channels.scope_user (Channels.scope self)) as [user |]; [| done].
    destruct (Channels.is_authenticated user); [| done].
    destruct (matches st !! Channels.url_match_id (Channels.scope self));
      destruct (profiles st !! Channels.user_id user); done.
  - intros g. by rewrite connect_store.
  - intros (c & Hcu & Hcm). by eapply connect_found.
Qed.

(** On the sample database: user 10 of club 1 asks for match 1000 of
    club 1 on channel c1. *)
Lemma handshake_is_never_accepted_witness :
  Channels.connect Sample.st0 ∅ (Sample.consumer "c1" Sample.own_scope)
  = (∅, Sample.consumer "c1" Sample.own_scope,
     Channels.SynchronousOnlyOperation).
Proof.
  destruct (handshake_is_never_accepted Sample.st0 ∅
              (Sample.consumer "c1" Sample.own_scope)) as (_ & _ & Hraise).
  apply Hraise. exists 1. split; vm_compute; reflexivity.
Defined.

(** X14: no broadcast is delivered.  [broadcast_to_match] sends a
    message, of a type the consumer has a handler for, to exactly the
    members of the group of the match; and after any sequence of
    handshakes, disconnects and broadcasts that starts with an empty
    channel layer every group is empty, so a broadcast for any match
    sends nothing and nothing was ever sent. *)
Theorem no_broadcast_is_delivered (actions : list Channels.Action) :
  let sys := Channels.run Channels.init actions in
  (∀ layer mid ty data ch msg,
     (ch, msg) ∈ Channels.broadcast_to_match layer mid ty data
     ↔ ty ∈ Channels.handlers ∧
       msg = {| Channels.msg_type := ty; Channels.msg_data := data |} ∧
       ch ∈ members layer (Channels.group_of mid)) ∧
  (∀ g, members (Channels.sys_layer sys) g = ∅) ∧
  (∀ mid ty data,
     Channels.broadcast_to_match (Channels.sys_layer sys) mid ty data = []) ∧
  Channels.sys_log sys = [].
Proof.
  intros sys.
  destruct (silent_run actions Channels.init) as [Hlayer Hlog]; [done .. |].
  subst sys. rewrite Hlayer, Hlog. split_and!; [| | | done].
  - apply elem_of_broadcast.
  - intros g. unfold members. by rewrite lookup_empty.
  - apply broadcast_to_match_empty.
Qed.

(** * Further properties of the lifecycle actions and the snapshot *)

Lemma handle_profiles (st : Store) (r : Api.Request) :
  profiles (Api.handle st r) = profiles st.
Proof.
  destruct r as [d | user mid i | user sf i | user sf i]; simpl.
  - unfold Ledger.create, Ledger.perform_create.
    destruct (Ledger.is_valid st d) as [err | v]; [done |].
    repeat (case_match; try done).
  - unfold Ledger.undo.
    destruct (Ledger.get_object st user mid i) as [e |]; [| done].
    by destruct (corrected_event e).
  - by destruct (set_match_status_store in_progress st user sf i) as (_ & _ & ? & _).
  - by destruct (set_match_status_store completed st user sf i) as (_ & _ & ? & _).
Qed.

Lemma handle_matches_ledger (st : Store) (r : Api.Request) :
  Facts.lifecycle_target r = None → matches (Api.handle st r) = matches st.
Proof.
  destruct r as [d | user mid i | user sf i | user sf i]; simpl; try done.
  - intros _. unfold Ledger.create, Ledger.perform_create.
    destruct (Ledger.is_valid st d) as [err | v]; [done |].
    repeat (case_match; try done).
  - intros _. unfold Ledger.undo.
    destruct (Ledger.get_object st user mid i) as [e |]; [| done].
    by destruct (corrected_event e).
Qed.

Lemma set_match_status_outsider (new : MatchStatus) (st : Store) (user : pk)
    (sf : option string) (i j : pk) (m : Match) :
  matches st !! j = Some m → (i = j → outsider st user (match_club m)) →
  matches (Lifecycle.set_match_status new st user sf i).1 !! j = Some m.
Proof.
  intros Hm Hout. unfold Lifecycle.set_match_status.
  destruct (Lifecycle.get_object st user sf i) as [m0 |] eqn:Hget; [| done].
  simpl. destruct (decide (i = j)) as [-> | Hne]; [| by rewrite lookup_insert_ne].
  exfalso. unfold Lifecycle.get_object in Hget.
  destruct (profiles st !! user) as [profile |] eqn:Hp; simpl in Hget; [| done].
  rewrite Hm in Hget; simpl in Hget.
  case_bool_decide as Hclub; simpl in Hget; [| done].
  by apply (Hout eq_refl profile Hp).
Qed.

(** X15: the lifecycle actions are scoped to the caller's club.  Over
    any sequence of requests in which [start_match] and
    [complete_match] are asked for a match only by users without a
    profile or of other clubs, the row of that match (its status
    included) stays exactly as it was. *)
Theorem lifecycle_is_club_scoped (st : Store) (rs : list Api.Request)
    (j : pk) (m : Match) :
  matches st !! j = Some m →
  (∀ r user, r ∈ rs → Facts.lifecycle_target r = Some (user, j) →
             outsider st user (match_club m)) →
  matches (Api.handle_all st rs) !! j = Some m.
Proof.
  unfold Api.handle_all. revert st.
  induction rs as [|r rs IH]; intros st Hm Hout; simpl; [done |].
  apply IH.
  - destruct r as [d | user mid i | user sf i | user sf i].
    + by rewrite handle_matches_ledger.
    + by rewrite handle_matches_ledger.
    + apply set_match_status_outsider; [done |]. intros ->.
      apply (Hout (Api.StartMatch user sf j)); [by left | done].
    + apply set_match_status_outsider; [done |]. intros ->.
      apply (Hout (Api.CompleteMatch user sf j)); [by left | done].
  - intros r' user Hin Ht profile. rewrite handle_profiles.
    apply (Hout r' user); [by right | done].
Qed.

(** On the sample database: user 20 of club 2 asks to start and to
    complete match 1001 of club 1. *)
Lemma lifecycle_is_club_scoped_witness :
  matches (Api.handle_all Sample.st0
             [Api.StartMatch 20 None 1001; Api.CompleteMatch 20 None 1001])
    !! 1001
  = Some (Sample.fresh_match 1 scheduled live).
Proof.
  apply lifecycle_is_club_scoped; [vm_compute; reflexivity |].
  intros r user Hin Ht profile Hp.
  repeat (apply elem_of_cons in Hin as [-> | Hin];
          [injection Ht as <-; vm_compute in Hp; injection Hp as <-;
           simpl; lia |]).
  by apply elem_of_nil in Hin.
Defined.

#[local] Instance by_timestamp_minute_total : Total Channels.by_timestamp_minute.
Proof.
  intros e1 e2. unfold Channels.by_timestamp_minute.
  destruct (timestamp e1), (timestamp e2); lia.
Qed.

#[local] Instance by_timestamp_minute_trans :
  Transitive Channels.by_timestamp_minute.
Proof.
  intros e1 e2 e3. unfold Channels.by_timestamp_minute.
  destruct (timestamp e1), (timestamp e2), (timestamp e3); lia.
Qed.

(** X16: the snapshot lists at most 50 events, all of them events of
    the match, in the order of timestamp and minute; they are the
    first 50 in that order, so an event of the match that is left out
    comes after every listed one, and with at most 50 events in the
    match none is left out.  There is a snapshot exactly when the match
    exists. *)
Theorem snapshot_lists_first_50 (st : Store) (i : pk) :
  (Channels.get_match_state st i = None ↔ matches st !! i = None) ∧
  ∀ s, Channels.get_match_state st i = Some s →
       let recent := Channels.state_recent_events s in
       (length recent ≤ 50)%nat ∧
       Sorted Channels.by_timestamp_minute recent ∧
       (∀ e, e ∈ recent → e ∈ events st ∧ event_match e = i) ∧
       (∀ e e', e ∈ recent → e' ∈ of_match st i → e' ∉ recent →
                Channels.by_timestamp_minute e e') ∧
       ((length (of_match st i) ≤ 50)%nat → recent ≡ₚ of_match st i).
Proof.
  unfold Channels.get_match_state. fold (of_match st i).
  destruct (matches st !! i) as [m |]; simpl; [| done].
  split; [done |]. intros s [= <-]. simpl.
  set (sorted := merge_sort Channels.by_timestamp_minute (of_match st i)).
  assert (Hperm : sorted ≡ₚ of_match st i) by apply merge_sort_Permutation.
  assert (Hss : StronglySorted Channels.by_timestamp_minute sorted)
    by (apply StronglySorted_merge_sort; apply _).
  rewrite <- (take_drop 50 sorted) in Hss.
  apply StronglySorted_app in Hss as (Hcross & Htake & _).
  split_and!.
  - rewrite length_take. lia.
  - by apply StronglySorted_Sorted.
  - intros e He. apply elem_of_take in He as (k & He & _).
    apply list_elem_of_lookup_2 in He. rewrite Hperm in He.
    by apply list_elem_of_filter in He as [? ?].
  - intros e e' He He' Hout. apply Hcross; [done |].
    rewrite <- Hperm, <- (take_drop 50 sorted) in He'.
    by apply elem_of_app in He' as [? | ?].
  - intros Hfew. rewrite take_ge; [done |]. by rewrite Hperm.
Qed.

(** On the sample database after three scores: the snapshot of match
    1000 lists all three. *)
Lemma snapshot_lists_first_50_witness :
  ∃ s, Channels.get_match_state Examples.scored 1000 = Some s ∧
       Channels.state_recent_events s ≡ₚ of_match Examples.scored 1000.
Proof.
  destruct (Channels.get_match_state Examples.scored 1000) as [s |] eqn:Hs;
    [| exfalso; vm_compute in Hs; discriminate].
  exists s. split; [done |].
  destruct (snapshot_lists_first_50 Examples.scored 1000) as [_ Hsnap].
  destruct (Hsnap s Hs) as (_ & _ & _ & _ & Hall).
  apply Hall. vm_compute. lia.
Defined.

(** * Properties of the subdomain middleware and the roster *)

Import Stdlib.Strings.Ascii.

Lemma before_colon_no_colon (host : list Ascii.ascii) :
  ":"%char ∉ host → Middleware.before_colon host = host.
Proof.
  induction host as [|c host IH]; [done |].
  intros [Hc Hh]%not_elem_of_cons. simpl.
  rewrite decide_False by done. by rewrite IH.
Qed.

Lemma before_colon_port (host port : list Ascii.ascii) :
  ":"%char ∉ host →
  Middleware.before_colon (host ++ ":"%char :: port) = host.
Proof.
  induction host as [|c host IH]; simpl.
  - intros _. reflexivity.
  - intros [Hc Hh]%not_elem_of_cons.
    rewrite decide_False by done. by rewrite IH.
Qed.

(** X17: for a host that is not local, the subdomain the middleware
    stores is the host (port removed) without the base domain at its
    end, where the base domain is the last allowed host without its
    leading dots: subdomain and base domain put together give the host
    back, so the dot before the base domain stays on the subdomain.  A
    host that does not end with the base domain gets the default
    subdomain, and when the stripped base domain is empty every such
    host gets the empty subdomain. *)
Theorem subdomain_is_host_without_base (allowed : list (list Ascii.ascii))
    (default raw base : list Ascii.ascii) :
  let host := Middleware.before_colon raw in
  let stem := Middleware.lstrip_dot base in
  host ∉ [Middleware.chars "localhost"; Middleware.chars "127.0.0.1"] →
  last allowed = Some base →
  (stem ≠ [] → stem `suffix_of` host →
   ∃ sub, Middleware.process_request allowed default raw = Some sub ∧
          sub ++ stem = host) ∧
  (¬ stem `suffix_of` host →
   Middleware.process_request allowed default raw = Some default) ∧
  (stem = [] → Middleware.process_request allowed default raw = Some []).
Proof.
  intros host stem Hlocal Hlast. unfold Middleware.process_request.
  fold host. rewrite decide_False by done. rewrite Hlast. fold stem.
  split_and!.
  - intros Hne Hsuf. rewrite decide_True by done.
    eexists. split; [done |]. unfold Middleware.slice_to_minus.
    rewrite decide_False by (by destruct stem).
    destruct Hsuf as [k ->].
    rewrite length_app, Nat.add_sub, take_app_length. done.
  - intros Hno. by rewrite decide_False.
  - intros Hempty. rewrite Hempty. rewrite decide_True by apply suffix_nil.
    done.
Qed.

(** With the default settings: a club host with a port. *)
Lemma subdomain_is_host_without_base_witness :
  Middleware.process_request Middleware.default_allowed_hosts
    (Middleware.chars "demo") (Middleware.chars "austinstacks.gaastats.ie:8000")
  = Some (Middleware.chars "austinstacks.").
Proof.
  destruct (subdomain_is_host_without_base Middleware.default_allowed_hosts
              (Middleware.chars "demo")
              (Middleware.chars "austinstacks.gaastats.ie:8000")
              (Middleware.chars ".gaastats.ie")) as (Hsub & _ & _).
  - intros H. vm_compute in H.
    repeat (apply elem_of_cons in H as [H | H]; [discriminate |]).
    by apply elem_of_nil in H.
  - reflexivity.
  - destruct Hsub as (sub & -> & Heq).
    + discriminate.
    + exists (Middleware.chars "austinstacks."). reflexivity.
    + f_equal. vm_compute in Heq.
      change (sub ++ Middleware.chars "gaastats.ie"
              = Middleware.chars "austinstacks." ++ Middleware.chars "gaastats.ie")
        in Heq.
      by apply (inj (λ x, x ++ Middleware.chars "gaastats.ie")) in Heq.
Defined.

(** X18: the port of the host never matters, and a local host always
    gets the default subdomain, whatever the allowed hosts are (even
    none). *)
Theorem port_and_local_hosts (allowed : list (list Ascii.ascii))
    (default : list Ascii.ascii) :
  (∀ host port, ":"%char ∉ host →
     Middleware.process_request allowed default (host ++ ":"%char :: port)
     = Middleware.process_request allowed default host) ∧
  (∀ raw, Middleware.before_colon raw
          ∈ [Middleware.chars "localhost"; Middleware.chars "127.0.0.1"] →
     Middleware.process_request allowed default raw = Some default).
Proof.
  split.
  - intros host port Hno. unfold Middleware.process_request.
    by rewrite before_colon_port, before_colon_no_colon.
  - intros raw Hlocal. unfold Middleware.process_request.
    by rewrite decide_True.
Qed.

(** A local host with a port, and no allowed hosts at all. *)
Lemma port_and_local_hosts_witness :
  Middleware.process_request [] (Middleware.chars "demo")
    (Middleware.chars "localhost:8000")
  = Some (Middleware.chars "demo").
Proof.
  destruct (port_and_local_hosts [] (Middleware.chars "demo")) as [_ Hlocal].
  apply Hlocal. vm_compute. by left.
Defined.

(** X19: [available] lists only available players of the caller's club
    whose stored injury status is the string healthy.  That string is
    none of the statuses the model offers (fit, injured, doubtful,
    suspended), so on a roster whose rows all carry one of those
    statuses the list is empty. *)
Theorem available_needs_healthy (st : Store) (rows : gmap pk Roster.PlayerRow)
    (user : pk) (l : list (pk * Roster.PlayerRow)) :
  Roster.available st rows user = inr l →
  (∀ i r, (i, r) ∈ l →
     rows !! i = Some r ∧ Roster.row_is_available r = true ∧
     Roster.row_injury_status r = "healthy"%string ∧
     (∃ profile, profiles st !! user = Some profile ∧
                 Roster.row_club r = profile_club profile) ∧
     ∀ s, Roster.row_injury_status r ≠ Roster.injury_status_name s) ∧
  ((∀ i r, rows !! i = Some r →
           ∃ s, Roster.row_injury_status r = Roster.injury_status_name s) →
   l = []).
Proof.
  unfold Roster.available.
  destruct (profiles st !! user) as [profile |]; [| done].
  intros [= <-].
  assert (Hin : ∀ i r,
    (i, r) ∈ merge_sort Roster.by_name
      (filter (λ r, Roster.row_club r.2 = profile_club profile ∧
                    Roster.row_is_available r.2 = true ∧
                    Roster.row_injury_status r.2 = "healthy"%string)
              (map_to_list rows)) →
    rows !! i = Some r ∧ Roster.row_is_available r = true ∧
    Roster.row_injury_status r = "healthy"%string ∧
    (∃ profile0, Some profile = Some profile0 ∧
                 Roster.row_club r = profile_club profile0) ∧
    ∀ s, Roster.row_injury_status r ≠ Roster.injury_status_name s).
  { intros i r. rewrite elem_of_merge_sort, list_elem_of_filter; simpl.
    intros [(Hc & Ha & Hh) Hr]. apply elem_of_map_to_list in Hr.
    split_and!; try done; [by exists profile |].
    intros s. rewrite Hh. by destruct s. }
  split; [done |]. intros Hchoices.
  destruct (merge_sort _ _) as [|[i r] l'] eqn:Hl; [done |].
  destruct (Hin i r) as (Hr & _ & _ & _ & Hno); [by left |].
  destruct (Hchoices i r Hr) as [s Hs]. by destruct (Hno s).
Qed.

(** On the sample roster: player 100 is fit and available, yet the
    list of available players is empty. *)
Lemma available_needs_healthy_witness :
  Roster.available Sample.st0 Roster.sample_rows 10 = inr [].
Proof.
  destruct (Roster.available Sample.st0 Roster.sample_rows 10)
    as [err | l] eqn:Ha; [exfalso; vm_compute in Ha; discriminate |].
  destruct (available_needs_healthy Sample.st0 Roster.sample_rows 10 l Ha)
    as [_ Hempty].
  rewrite Hempty; [done |]. intros i r Hr.
  unfold Roster.sample_rows in Hr.
  apply lookup_insert_Some in Hr as [[_ <-] | [_ Hr]];
    [by exists Roster.fit |].
  apply lookup_singleton_Some in Hr as [_ <-]. by exists Roster.injured.
Defined.
